(** * LevelDB (annotated): bloom filter policy, table build, coordinator

    A shallow embedding of
    - [util/bloom.cc]  : [BloomFilterPolicy], [CreateFilter], [KeyMayMatch];
    - [db/builder.cc]  : [BuildTable];
    - [db/db_impl.h]   : the coordinator state declared by [DBImpl].

    Conventions.  [size_t] and [uint64_t] are 64-bit, [uint32_t] is 32-bit,
    each carried as a [Z] with the wrap-around written out.  A [std::string]
    used as a byte buffer is a [list Z] of unsigned byte values; a [Slice]
    holding a key is a list of bytes. *)

From Stdlib Require Import ZArith Lia Bool.
From Stdlib Require Import Floats.SpecFloat.
From stdpp Require Import base list strings sets pretty sorting.

Set Warnings "-clear-no-such-hyp".

Local Open Scope Z_scope.

(** ** Machine integers *)

Definition wrap32 (x : Z) : Z := x mod 2 ^ 32.
Definition wrap64 (x : Z) : Z := x mod 2 ^ 64.
Definition wrap8 (x : Z) : Z := x mod 2 ^ 8.

Definition Slice := list Byte.byte.

(** ** Status (leveldb/status.h): OK, or an error kind with a message *)

Inductive Code := kNotFound | kCorruption | kNotSupported | kInvalidArgument | kIOError.

Inductive Status :=
| OK
| Error (c : Code) (msg : string).

Definition ok (s : Status) : bool :=
  match s with OK => true | Error _ _ => false end.

(** ** IEEE binary64, for [bits_per_key * 0.69] *)

Module Double.

Definition prec : Z := 53.
Definition emax : Z := 1024.

(** The literal [0.69]: the nearest binary64 value, 0x1.6147ae147ae14p-1. *)
Definition d0_69 : spec_float := S754_finite false 6214967485771284 (-53).

(** [int] to [double]: exact, an [int] has fewer than 53 bits. *)
Definition of_int (z : Z) : spec_float :=
  match z with
  | Z0 => S754_zero false
  | Zpos p => S754_finite false p 0
  | Zneg p => S754_finite true p 0
  end.

Definition mul (x y : spec_float) : spec_float := SFmul prec emax x y.

(** The integral part, rounding toward zero. *)
Definition truncate (x : spec_float) : option Z :=
  match x with
  | S754_zero _ => Some 0
  | S754_finite s m e =>
      let a := if 0 <=? e then Zpos m * 2 ^ e else Zpos m / 2 ^ (- e) in
      Some (if s then - a else a)
  | S754_infinity _ | S754_nan => None
  end.

(** [static_cast<size_t>(x)]: the truncated value when [size_t] can hold
    it; otherwise the conversion is undefined, which is [None] here. *)
Definition to_size_t (x : spec_float) : option Z :=
  match truncate x with
  | Some v => if (0 <=? v) && (v <? 2 ^ 64) then Some v else None
  | None => None
  end.

End Double.

(** ** util/bloom.cc *)

Module Bloom.
Section WithHash.

(** [Hash(data, n, seed)] of util/hash.h, whose definition is not part of
    these sources.  Its result type is [uint32_t]. *)
Variable Hash : Slice -> Z -> Z.

Definition BloomHash (key : Slice) : Z :=
  wrap32 (Hash key 0xbc9f1d34).

Record BloomFilterPolicy_t := mkPolicy {
  bits_per_key_ : Z;   (* size_t *)
  k_ : Z               (* size_t *)
}.

(** The constructor, from [int bits_per_key].  [None] exactly when the
    conversion of the product to [size_t] is undefined. *)
Definition BloomFilterPolicy (bits_per_key : Z) : option BloomFilterPolicy_t :=
  match Double.to_size_t (Double.mul (Double.of_int bits_per_key) Double.d0_69) with
  | None => None
  | Some k =>
      let k := if k <? 1 then 1 else k in
      let k := if 30 <? k then 30 else k in
      Some {| bits_per_key_ := wrap64 bits_per_key; k_ := k |}
  end.

(** [(h >> 17) | (h << 15)] on [uint32_t]. *)
Definition rotate_right_17 (h : Z) : Z :=
  Z.lor (Z.shiftr h 17) (wrap32 (Z.shiftl h 15)).

(** The inner loop of [CreateFilter], [j] iterations left.  [array] starts
    at offset [init_size] of [dst].  [None] stands for undefined behaviour:
    [h % bits] with [bits = 0], or a store outside [dst]. *)
Fixpoint set_probes (j : nat) (h delta bits : Z) (init_size : nat)
    (dst : list Z) : option (list Z) :=
  match j with
  | O => Some dst
  | S j' =>
      if bits =? 0 then None
      else
        let bitpos := wrap32 (h mod bits) in
        let i := (init_size + Z.to_nat (bitpos / 8))%nat in
        match dst !! i with
        | None => None
        | Some c =>
            let c' := wrap8 (Z.lor c (Z.shiftl 1 (bitpos mod 8))) in
            set_probes j' (wrap32 (h + delta)) delta bits init_size (<[i := c']> dst)
        end
  end.

(** The outer loop of [CreateFilter] over [keys[0..n)]. *)
Fixpoint add_keys (p : BloomFilterPolicy_t) (keys : list Slice) (bits : Z)
    (init_size : nat) (dst : list Z) : option (list Z) :=
  match keys with
  | [] => Some dst
  | key :: keys' =>
      let h := BloomHash key in
      let delta := rotate_right_17 h in
      match set_probes (Z.to_nat (k_ p)) h delta bits init_size dst with
      | None => None
      | Some dst' => add_keys p keys' bits init_size dst'
      end
  end.

Definition CreateFilter (p : BloomFilterPolicy_t) (keys : list Slice)
    (dst : list Z) : option (list Z) :=
  let n := Z.of_nat (length keys) in
  let bits := wrap64 (n * bits_per_key_ p) in
  let bits := if bits <? 64 then 64 else bits in
  let bytes := wrap64 (bits + 7) / 8 in
  let bits := wrap64 (bytes * 8) in
  let init_size := length dst in
  let dst := dst ++ replicate (Z.to_nat bytes) 0 in     (* resize(init_size + bytes, 0) *)
  let dst := dst ++ [wrap8 (k_ p)] in                   (* push_back(static_cast<char>(k_)) *)
  add_keys p keys bits init_size dst.

(** [char] to [size_t], for a signed [char]: sign extension.  With an
    unsigned [char] the value is the byte itself; both agree below 128. *)
Definition char_to_size_t (c : Z) : Z :=
  if c <? 128 then c else wrap64 (c - 256).

(** The loop of [KeyMayMatch], [j] iterations left. *)
Fixpoint test_probes (j : nat) (h delta bits : Z) (array : list Z) : bool :=
  match j with
  | O => true
  | S j' =>
      let bitpos := wrap32 (h mod bits) in
      let c := array !!! Z.to_nat (bitpos / 8) in
      if Z.land c (Z.shiftl 1 (bitpos mod 8)) =? 0 then false
      else test_probes j' (wrap32 (h + delta)) delta bits array
  end.

Definition KeyMayMatch (p : BloomFilterPolicy_t) (key : Slice)
    (bloom_filter : list Z) : bool :=
  let len := Z.of_nat (length bloom_filter) in
  if len <? 2 then false
  else
    let array := bloom_filter in
    let bits := wrap64 ((len - 1) * 8) in
    let k := char_to_size_t (array !!! Z.to_nat (len - 1)) in
    if 30 <? k then true
    else
      let h := BloomHash key in
      let delta := rotate_right_17 h in
      test_probes (Z.to_nat k) h delta bits array.

End WithHash.
End Bloom.

(** ** Notions used to state the properties of the bloom filter *)

Module BloomSpec.

Import Bloom.

(** What the constructor must give for a non-negative [int]: the bits per
    key as they are, and 69 hundredths of them, rounded down and clamped
    to 1..30. *)
Definition expected_policy (bits_per_key : Z) : BloomFilterPolicy_t :=
  {| bits_per_key_ := bits_per_key;
     k_ := Z.max 1 (Z.min 30 (bits_per_key * 69 / 100)) |}.

Definition policy_eqb (p q : BloomFilterPolicy_t) : bool :=
  (bits_per_key_ p =? bits_per_key_ q) && (k_ p =? k_ q).

Definition constructor_agrees (b : nat) : bool :=
  match BloomFilterPolicy (Z.of_nat b) with
  | Some p => policy_eqb p (expected_policy (Z.of_nat b))
  | None => false
  end.

(** [covers a b]: every byte of [a] is present in [b] with at least the
    same bits set. *)
Definition covers (a b : list Z) : Prop :=
  forall (i : nat) c, a !! i = Some c ->
    exists c', b !! i = Some c' /\
      forall n, 0 <= n < 8 -> Z.testbit c n = true -> Z.testbit c' n = true.

(** The number of bytes of the bit array, as [CreateFilter] computes it
    for [n] keys. *)
Definition filter_bytes (p : BloomFilterPolicy_t) (n : Z) : Z :=
  let bits := wrap64 (n * bits_per_key_ p) in
  let bits := if bits <? 64 then 64 else bits in
  wrap64 (bits + 7) / 8.

End BloomSpec.

(** ** db/builder.cc *)

Module Builder.

(** An [InternalKey] owns the encoded key; [DecodeFrom(s)] stores the bytes
    of [s] (db/dbformat.h). *)
Definition InternalKey := Slice.

(** [FileMetaData] (db/version_edit.h): the per-file record. *)
Record FileMetaData := mkFileMetaData {
  allowed_seeks : Z;
  number : Z;              (* uint64_t *)
  file_size : Z;           (* uint64_t *)
  smallest : InternalKey;
  largest : InternalKey
}.

Definition set_file_size (n : Z) (meta : FileMetaData) : FileMetaData :=
  {| allowed_seeks := allowed_seeks meta; number := number meta; file_size := n;
     smallest := smallest meta; largest := largest meta |}.
Definition set_smallest (k : InternalKey) (meta : FileMetaData) : FileMetaData :=
  {| allowed_seeks := allowed_seeks meta; number := number meta;
     file_size := file_size meta; smallest := k; largest := largest meta |}.
Definition set_largest (k : InternalKey) (meta : FileMetaData) : FileMetaData :=
  {| allowed_seeks := allowed_seeks meta; number := number meta;
     file_size := file_size meta; smallest := smallest meta; largest := k |}.

(** The collaborators of [BuildTable] live outside these sources; each is
    the record of what its calls answer. *)

(** The input [Iterator*]: the entries it yields from [SeekToFirst] on, in
    order, and its [status()]. *)
Record Iterator := mkIterator {
  entries : list (Slice * Slice);
  status : Status
}.

(** A [WritableFile*]: what [Sync()] and [Close()] answer. *)
Record WritableFile := mkWritableFile {
  Sync : Status;
  Close : Status
}.

(** [Env*]: [NewWritableFile(fname, &file)] answers a status and the file
    object; the status of [DeleteFile] is dropped by the caller. *)
Record Env := mkEnv {
  NewWritableFile : string -> Status * WritableFile
}.

(** A [TableBuilder]: what [Finish()] and [FileSize()] answer after the
    given entries were added. *)
Record TableBuilder := mkTableBuilder {
  Finish : list (Slice * Slice) -> Status;
  FileSize : list (Slice * Slice) -> Z
}.

(** [TableCache*]: the status of the iterator that
    [NewIterator(ReadOptions(), number, file_size)] hands back. *)
Record TableCache := mkTableCache {
  NewIterator : Z -> Z -> Status
}.

(** The calls [BuildTable] makes on its collaborators, in program order. *)
Inductive event :=
| EvNewWritableFile (fname : string) (s : Status)
| EvNewTableBuilder
| EvAdd (key value : Slice)
| EvFinish (s : Status)
| EvFileSize (n : Z)
| EvDeleteBuilder
| EvSync (s : Status)
| EvClose (s : Status)
| EvDeleteFileObject
| EvNewIterator (number file_size : Z) (s : Status)
| EvDeleteFile (fname : string).

(** How control leaves the [if (iter->Valid())] block. *)
Inductive flow :=
| FallThrough (s : Status) (meta : FileMetaData) (tr : list event)
| EarlyReturn (s : Status) (meta : FileMetaData) (tr : list event)
| AssertionFailed (tr : list event).

Inductive outcome :=
| Returns (s : Status) (meta : FileMetaData) (tr : list event)
| Aborts (tr : list event).

(** [for (; iter->Valid(); iter->Next())]: the last key seen is stored in
    [meta->largest], every entry goes to [builder->Add]. *)
Fixpoint add_loop (rest : list (Slice * Slice)) (meta : FileMetaData)
    : FileMetaData * list event :=
  match rest with
  | [] => (meta, [])
  | (key, value) :: rest' =>
      let meta := set_largest key meta in
      let '(meta, tr) := add_loop rest' meta in
      (meta, EvAdd key value :: tr)
  end.

Section WithCollaborators.

(** [TableFileName(dbname, number)] of db/filename.h. *)
Variable TableFileName : string -> Z -> string.
(** [new TableBuilder(options, file)]. *)
Variable new_TableBuilder : WritableFile -> TableBuilder.

(** Lines 31-82: the body of [if (iter->Valid())], entered with a first
    entry [(key0, _)]. *)
Definition write_table (fname : string) (env : Env) (table_cache : TableCache)
    (key0 : Slice) (all : list (Slice * Slice)) (meta : FileMetaData) : flow :=
  let '(s, file) := NewWritableFile env fname in
  let tr := [EvNewWritableFile fname s] in
  if negb (ok s) then EarlyReturn s meta tr
  else
    let builder := new_TableBuilder file in
    let tr := tr ++ [EvNewTableBuilder] in
    let meta := set_smallest key0 meta in
    let '(meta, adds) := add_loop all meta in
    let tr := tr ++ adds in
    let s := Finish builder all in
    let tr := tr ++ [EvFinish s] in
    let size := wrap64 (FileSize builder all) in
    if ok s && negb (0 <? size) then AssertionFailed (tr ++ [EvFileSize size])
    else
      let meta := if ok s then set_file_size size meta else meta in
      let tr := if ok s then tr ++ [EvFileSize size] else tr in
      let tr := tr ++ [EvDeleteBuilder] in
      let s' := if ok s then Sync file else s in
      let tr := if ok s then tr ++ [EvSync s'] else tr in
      let s'' := if ok s' then Close file else s' in
      let tr := if ok s' then tr ++ [EvClose s''] else tr in
      let tr := tr ++ [EvDeleteFileObject] in
      if ok s'' then
        let s3 := NewIterator table_cache (number meta) (file_size meta) in
        FallThrough s3 meta (tr ++ [EvNewIterator (number meta) (file_size meta) s3])
      else FallThrough s'' meta tr.

(** Lines 85-95: the input iterator's error takes over the status; the
    file is kept only for an ok status and a positive size. *)
Definition finish_build (fname : string) (iter : Iterator) (s : Status)
    (meta : FileMetaData) (tr : list event) : outcome :=
  let s := if negb (ok (status iter)) then status iter else s in
  if ok s && (0 <? file_size meta) then Returns s meta tr
  else Returns s meta (tr ++ [EvDeleteFile fname]).

Definition BuildTable (dbname : string) (env : Env) (table_cache : TableCache)
    (iter : Iterator) (meta : FileMetaData) : outcome :=
  let s := OK in
  let meta := set_file_size 0 meta in
  let fname := TableFileName dbname (number meta) in
  let body :=
    match entries iter with                      (* iter->SeekToFirst(); iter->Valid() *)
    | [] => FallThrough s meta []
    | (key0, _) :: _ => write_table fname env table_cache key0 (entries iter) meta
    end in
  match body with
  | EarlyReturn s meta tr => Returns s meta tr
  | AssertionFailed tr => Aborts tr
  | FallThrough s meta tr => finish_build fname iter s meta tr
  end.

(** The status held in [s] when control reaches line 85, if it does. *)
Definition status_before_input_check (dbname : string) (env : Env)
    (table_cache : TableCache) (iter : Iterator) (meta : FileMetaData)
    : option Status :=
  let meta := set_file_size 0 meta in
  let fname := TableFileName dbname (number meta) in
  match entries iter with
  | [] => Some OK
  | (key0, _) :: _ =>
      match write_table fname env table_cache key0 (entries iter) meta with
      | FallThrough s _ _ => Some s
      | _ => None
      end
  end.

End WithCollaborators.

(** Reading a trace: the files of the directory after the calls, for an
    [Env] whose successful [NewWritableFile] creates the file and whose
    [DeleteFile] removes it. *)
Definition apply_event (fs : list string) (e : event) : list string :=
  match e with
  | EvNewWritableFile fname OK => fname :: fs
  | EvDeleteFile fname => filter (λ f, f ≠ fname) fs
  | _ => fs
  end.

Definition files_after (fs : list string) (tr : list event) : list string :=
  foldl apply_event fs tr.

End Builder.

(** ** db/db_impl.h: the coordinator

    The header declares the members of [DBImpl] and the signatures of its
    methods; the method bodies (db/db_impl.cc) are not part of these sources
    and are modelled from the specification where a property needs them. *)

Module DBImpl.

Import Builder.

(** [config::kL0_SlowdownWritesTrigger], [config::kL0_StopWritesTrigger]
    (db/dbformat.h), with the values the specification gives. *)
Definition kL0_SlowdownWritesTrigger : Z := 8.
Definition kL0_StopWritesTrigger : Z := 12.

Record MemTable := mkMemTable {
  mem_entries : list (Slice * Slice);
  ApproximateMemoryUsage : Z
}.

Definition empty_MemTable : MemTable :=
  {| mem_entries := []; ApproximateMemoryUsage := 0 |}.

(** A version edit, with the parts the flush uses: files added per level
    and the new log number. *)
Record VersionEdit := mkVersionEdit {
  new_files : list (nat * FileMetaData);
  edit_log_number : option Z
}.

(** The version set as the coordinator sees it: the descriptor (manifest)
    is the log of the edits applied so far. *)
Record VersionSet := mkVersionSet {
  log_number : Z;
  next_file_number : Z;
  manifest : list VersionEdit;
  NumLevelFiles0 : Z;
  NeedsCompaction : bool
}.

Record ManualCompaction := mkManualCompaction {
  level : Z;
  done : bool;
  begin_ : option InternalKey;
  end_ : option InternalKey;
  tmp_storage : InternalKey
}.

(** The members of [DBImpl] guarded by [mutex_], together with
    [options_.write_buffer_size]. *)
Record t := mkDBImpl {
  write_buffer_size : Z;
  shutting_down_ : bool;
  mem_ : MemTable;
  imm_ : option MemTable;
  logfile_number_ : Z;
  pending_outputs_ : list Z;
  background_compaction_scheduled_ : bool;
  manual_compaction_ : option ManualCompaction;
  versions_ : VersionSet;
  bg_error_ : Status
}.

Definition set_bg_error (s : Status) (db : t) : t :=
  {| write_buffer_size := write_buffer_size db; shutting_down_ := shutting_down_ db;
     mem_ := mem_ db; imm_ := imm_ db; logfile_number_ := logfile_number_ db;
     pending_outputs_ := pending_outputs_ db;
     background_compaction_scheduled_ := background_compaction_scheduled_ db;
     manual_compaction_ := manual_compaction_ db; versions_ := versions_ db;
     bg_error_ := s |}.

Definition set_scheduled (b : bool) (db : t) : t :=
  {| write_buffer_size := write_buffer_size db; shutting_down_ := shutting_down_ db;
     mem_ := mem_ db; imm_ := imm_ db; logfile_number_ := logfile_number_ db;
     pending_outputs_ := pending_outputs_ db;
     background_compaction_scheduled_ := b;
     manual_compaction_ := manual_compaction_ db; versions_ := versions_ db;
     bg_error_ := bg_error_ db |}.

Definition set_imm_versions (imm : option MemTable) (v : VersionSet) (db : t) : t :=
  {| write_buffer_size := write_buffer_size db; shutting_down_ := shutting_down_ db;
     mem_ := mem_ db; imm_ := imm; logfile_number_ := logfile_number_ db;
     pending_outputs_ := pending_outputs_ db;
     background_compaction_scheduled_ := background_compaction_scheduled_ db;
     manual_compaction_ := manual_compaction_ db; versions_ := v;
     bg_error_ := bg_error_ db |}.

(** Modelled from the spec: rolling the log, the last row of the table of
    section 4.2 (db/db_impl.cc is missing).  The current memtable becomes
    [imm_]; a fresh one and a log file with a newly allocated number take
    over. *)
Definition switch_log (db : t) : t :=
  let v := versions_ db in
  let new_log_number := next_file_number v in
  {| write_buffer_size := write_buffer_size db; shutting_down_ := shutting_down_ db;
     mem_ := empty_MemTable; imm_ := Some (mem_ db);
     logfile_number_ := new_log_number;
     pending_outputs_ := pending_outputs_ db;
     background_compaction_scheduled_ := background_compaction_scheduled_ db;
     manual_compaction_ := manual_compaction_ db;
     versions_ := {| log_number := log_number v;
                     next_file_number := wrap64 (new_log_number + 1);
                     manifest := manifest v;
                     NumLevelFiles0 := NumLevelFiles0 v;
                     NeedsCompaction := NeedsCompaction v |};
     bg_error_ := bg_error_ db |}.

(** What the coordinator asks of its environment and of itself. *)
Inductive action :=
| Schedule_BGWork
| SleepForMicroseconds (us : Z)
| Wait_background_work_finished
| NewLogFile (number : Z)
| LogAndApply (edit : VersionEdit) (s : Status)
| DeleteObsoleteFiles.

(** Modelled from the spec: the body of [DBImpl::RecordBackgroundError]
    (db/db_impl.cc) is missing.  Section 4.3: on any failure, record the
    status in [bg_error]. *)
Definition RecordBackgroundError (s : Status) (db : t) : t :=
  set_bg_error s db.

(** Modelled from the spec: what counts as work for the background worker
    (db/db_impl.cc is missing).  Sections 4.3 to 4.5: a sealed memtable to
    flush, a manual compaction, or a version that needs compaction. *)
Definition work_exists (db : t) : bool :=
  bool_decide (imm_ db ≠ None)
  || bool_decide (manual_compaction_ db ≠ None)
  || NeedsCompaction (versions_ db).

(** Modelled from the spec: the body of [DBImpl::MaybeScheduleCompaction]
    (db/db_impl.cc) is missing.  Section 5: it only schedules when work
    exists and none is pending; [background_compaction_scheduled_] records
    that a task is scheduled or running. *)
Definition MaybeScheduleCompaction (db : t) : t * list action :=
  if background_compaction_scheduled_ db then (db, [])
  else if negb (work_exists db) then (db, [])
  else (set_scheduled true db, [Schedule_BGWork]).

(** Modelled from the spec: the body of [DBImpl::MakeRoomForWrite]
    (db/db_impl.cc) is missing.  One pass through the table of section
    4.2, rows in the order given there. *)
Inductive pass :=
| Done (s : Status)
| Again (force delayed : bool) (released : bool) (db : t) (acts : list action).

Definition MakeRoomForWrite_pass (force delayed : bool) (db : t) : pass :=
  let l0 := NumLevelFiles0 (versions_ db) in
  if negb (ok (bg_error_ db)) then Done (bg_error_ db)
  else if negb force && (ApproximateMemoryUsage (mem_ db) <? write_buffer_size db)
  then Done OK
  else if (kL0_SlowdownWritesTrigger <=? l0) && negb delayed
  then Again force true true db [SleepForMicroseconds 1000]
  else if bool_decide (imm_ db ≠ None)
  then Again force delayed true db [Wait_background_work_finished]
  else if kL0_StopWritesTrigger <=? l0
  then Again force delayed true db [Wait_background_work_finished]
  else
    let db := switch_log db in
    let '(db, sched) := MaybeScheduleCompaction db in
    Again false delayed false db (NewLogFile (logfile_number_ db) :: sched).

(** The loop.  While the mutex is released (sleep, wait) the background
    worker runs: [bg i] is what it does to the state at the [i]-th
    release.  [None] as status: the loop is still running when [fuel]
    passes are over. *)
Fixpoint MakeRoomForWrite_loop (fuel : nat) (bg : nat -> t -> t) (i : nat)
    (force delayed : bool) (db : t) : option Status * t * list action :=
  match fuel with
  | O => (None, db, [])
  | S fuel' =>
      match MakeRoomForWrite_pass force delayed db with
      | Done s => (Some s, db, [])
      | Again force' delayed' released db' acts =>
          let db'' := if released then bg i db' else db' in
          let i' := if released then S i else i in
          let '(r, dbf, rest) := MakeRoomForWrite_loop fuel' bg i' force' delayed' db'' in
          (r, dbf, acts ++ rest)
      end
  end.

Definition MakeRoomForWrite (fuel : nat) (bg : nat -> t -> t) (force : bool)
    (db : t) : option Status * t * list action :=
  MakeRoomForWrite_loop fuel bg 0 force false db.

Definition is_sleep (a : action) : bool :=
  match a with SleepForMicroseconds _ => true | _ => false end.

Definition sleeps (acts : list action) : nat := length (List.filter is_sleep acts).

(** Modelled from the spec: applying an edit to the version set
    (db/version_set.cc is missing).  Sections 3 and 6: the edit is appended
    to the manifest, its files join their levels and its log number, when
    present, becomes the current one. *)
Definition apply_edit (edit : VersionEdit) (v : VersionSet) : VersionSet :=
  {| log_number := default (log_number v) (edit_log_number edit);
     next_file_number := next_file_number v;
     manifest := manifest v ++ [edit];
     NumLevelFiles0 :=
       NumLevelFiles0 v
       + Z.of_nat (length (List.filter (λ lf, Nat.eqb lf.1 0) (new_files edit)));
     NeedsCompaction := NeedsCompaction v |}.

Section Flush.

(** [WriteLevel0Table(imm_, &edit, base)]: steps 1 to 4 of section 4.3;
    its status and the edit it filled in. *)
Variable WriteLevel0Table : MemTable -> VersionSet -> Status * VersionEdit.
(** Whether writing the edit to the descriptor succeeds. *)
Variable LogAndApply_status : VersionEdit -> Status.

(** Modelled from the spec: the body of [DBImpl::CompactMemTable]
    (db/db_impl.cc) is missing.  Section 4.3, step 5 and the failure
    rule, with the header's comment on the method. *)
Definition CompactMemTable (db : t) : t * list action :=
  match imm_ db with
  | None => (db, [])
  | Some imm =>
      let '(s, edit) := WriteLevel0Table imm (versions_ db) in
      if ok s then
        let edit := {| new_files := new_files edit;
                       edit_log_number := Some (logfile_number_ db) |} in
        let s := LogAndApply_status edit in
        if ok s then
          (set_imm_versions None (apply_edit edit (versions_ db)) db,
           [LogAndApply edit s; DeleteObsoleteFiles])
        else (RecordBackgroundError s db, [LogAndApply edit s])
      else (RecordBackgroundError s db, [])
  end.

End Flush.

(** The coordinator with the tasks its [Env] holds for it: [tasks] counts
    the [BGWork] calls scheduled and not yet finished. *)
Record world := mkWorld {
  db : t;
  tasks : nat
}.

Definition is_schedule (a : action) : bool :=
  match a with Schedule_BGWork => true | _ => false end.

Definition schedules (acts : list action) : nat :=
  length (List.filter is_schedule acts).

(** Modelled from the spec: the background worker's entry point
    ([DBImpl::BackgroundCall], db/db_impl.cc) is missing.  The steps of the
    coordinator under the mutex: a call of [MaybeScheduleCompaction]; the
    end of a background task, which clears the flag; anything else, which
    leaves the flag alone. *)
Inductive step : world -> world -> Prop :=
| step_MaybeScheduleCompaction w :
    step w {| db := (MaybeScheduleCompaction (db w)).1;
              tasks := tasks w + schedules (MaybeScheduleCompaction (db w)).2 |}
| step_task_finished w :
    (0 < tasks w)%nat ->
    step w {| db := set_scheduled false (db w); tasks := pred (tasks w) |}
| step_other w db' :
    background_compaction_scheduled_ db' = background_compaction_scheduled_ (db w) ->
    step w {| db := db'; tasks := tasks w |}.

Inductive reachable : world -> Prop :=
| reachable_init db0 :
    background_compaction_scheduled_ db0 = false ->
    reachable {| db := db0; tasks := 0 |}
| reachable_step w w' : reachable w -> step w w' -> reachable w'.

(** The flag counts the tasks the [Env] holds. *)
Definition flag_counts_tasks (w : world) : Prop :=
  tasks w = if background_compaction_scheduled_ (db w) then 1%nat else 0%nat.

End DBImpl.

(** ** Concrete collaborators and inputs, for the examples *)

Module Examples.

Import Builder DBImpl.

(** A stand-in for [Hash]: a polynomial over the bytes of the key. *)
Definition toy_Hash (key : Slice) (seed : Z) : Z :=
  fold_left (fun h b => h * 31 + Z.of_N (Byte.to_N b)) key seed.

Definition key_a : Slice := [Byte.x61].
Definition key_bc : Slice := [Byte.x62; Byte.x63].
Definition two_keys : list Slice := [key_a; key_bc].

Definition TableFileName (dbname : string) (number : Z) : string :=
  dbname +:+ "/" +:+ pretty number +:+ ".ldb".

(** A builder whose [Finish] succeeds and whose file has a 48-byte footer
    after one byte per entry. *)
Definition new_TableBuilder (_ : WritableFile) : TableBuilder :=
  {| Finish := fun _ => OK; FileSize := fun es => Z.of_nat (length es) + 48 |}.

Definition good_file : WritableFile := {| Sync := OK; Close := OK |}.
Definition unsynced_file : WritableFile :=
  {| Sync := Error kIOError "sync failed"; Close := OK |}.

Definition good_env : Env := {| NewWritableFile := fun _ => (OK, good_file) |}.
Definition full_env : Env :=
  {| NewWritableFile := fun _ => (Error kIOError "cannot create", good_file) |}.
Definition unsynced_env : Env := {| NewWritableFile := fun _ => (OK, unsynced_file) |}.

Definition good_cache : TableCache := {| NewIterator := fun _ _ => OK |}.

Definition two_entries : list (Slice * Slice) := [(key_a, key_bc); (key_bc, key_a)].

Definition good_iter : Iterator := {| entries := two_entries; status := OK |}.
Definition corrupt_iter : Iterator :=
  {| entries := two_entries; status := Error kCorruption "bad block" |}.
Definition empty_iter : Iterator := {| entries := []; status := OK |}.

Definition meta7 : FileMetaData :=
  {| allowed_seeks := 0; number := 7; file_size := 99; smallest := []; largest := [] |}.

Definition sealed : MemTable :=
  {| mem_entries := two_entries; ApproximateMemoryUsage := 4096 |}.

Definition versions0 : VersionSet :=
  {| log_number := 3; next_file_number := 8; manifest := [];
     NumLevelFiles0 := 0; NeedsCompaction := false |}.

(** A coordinator with a sealed memtable waiting for its flush. *)
Definition db0 : DBImpl.t :=
  {| write_buffer_size := 4194304; shutting_down_ := false;
     mem_ := empty_MemTable; imm_ := Some sealed; logfile_number_ := 6;
     pending_outputs_ := []; background_compaction_scheduled_ := true;
     manual_compaction_ := None; versions_ := versions0; bg_error_ := OK |}.

Definition flush_ok (_ : MemTable) (_ : VersionSet) : Status * VersionEdit :=
  (OK, {| new_files := [(O, meta7)]; edit_log_number := None |}).

Definition flush_fails (_ : MemTable) (_ : VersionSet) : Status * VersionEdit :=
  (Error kIOError "disk full", {| new_files := []; edit_log_number := None |}).

Definition apply_ok (_ : VersionEdit) : Status := OK.

Definition policy10 : Bloom.BloomFilterPolicy_t :=
  {| Bloom.bits_per_key_ := 10; Bloom.k_ := 6 |}.

(** A coordinator with a full memtable and nine files at level 0. *)
Definition busy : DBImpl.t :=
  {| write_buffer_size := 4096; shutting_down_ := false;
     mem_ := sealed; imm_ := None; logfile_number_ := 6;
     pending_outputs_ := []; background_compaction_scheduled_ := false;
     manual_compaction_ := None;
     versions_ := {| log_number := 3; next_file_number := 8; manifest := [];
                     NumLevelFiles0 := 9; NeedsCompaction := false |};
     bg_error_ := OK |}.

End Examples.

(** ** util/bloom.cc: the probed positions, and reads with their bounds *)

Module BloomProbes.
Import Bloom.

(** The bit positions one key is probed at: the values [bitpos] takes in
    the inner loop, [j] iterations from hash [h] on. *)
Fixpoint probe_positions (j : nat) (h delta bits : Z) : list Z :=
  match j with
  | O => []
  | S j' => wrap32 (h mod bits) :: probe_positions j' (wrap32 (h + delta)) delta bits
  end.

(** Bit [pos] of a bit array held in bytes, low bit first. *)
Definition bit_of (array : list Z) (pos : Z) : bool :=
  Z.testbit (array !!! Z.to_nat (pos / 8)) (pos mod 8).

Section WithHash.
Variable Hash : Slice -> Z -> Z.

Definition key_probes (k bits : Z) (key : Slice) : list Z :=
  probe_positions (Z.to_nat k) (BloomHash Hash key)
    (rotate_right_17 (BloomHash Hash key)) bits.

(** The loop of [KeyMayMatch] with the undefined cases made explicit:
    [None] for [h % bits] with [bits = 0] and for a read outside
    [array]. *)
Fixpoint test_probes_checked (j : nat) (h delta bits : Z) (array : list Z)
    : option bool :=
  match j with
  | O => Some true
  | S j' =>
      if bits =? 0 then None
      else
        let bitpos := wrap32 (h mod bits) in
        match array !! Z.to_nat (bitpos / 8) with
        | None => None
        | Some c =>
            if Z.land c (Z.shiftl 1 (bitpos mod 8)) =? 0 then Some false
            else test_probes_checked j' (wrap32 (h + delta)) delta bits array
        end
  end.

Definition KeyMayMatch_checked (p : BloomFilterPolicy_t) (key : Slice)
    (bloom_filter : list Z) : option bool :=
  let len := Z.of_nat (length bloom_filter) in
  if len <? 2 then Some false
  else
    let array := bloom_filter in
    let bits := wrap64 ((len - 1) * 8) in
    match array !! Z.to_nat (len - 1) with
    | None => None
    | Some c =>
        let k := char_to_size_t c in
        if 30 <? k then Some true
        else
          let h := BloomHash Hash key in
          let delta := rotate_right_17 h in
          test_probes_checked (Z.to_nat k) h delta bits array
    end.

End WithHash.
End BloomProbes.

(** ** db/builder.cc: reading the trace of calls *)

Module BuilderTrace.
Import Builder.

Definition trace_of (o : outcome) : list event :=
  match o with Returns _ _ tr | Aborts tr => tr end.

(** The entries handed to [builder->Add], in call order. *)
Definition added (tr : list event) : list (Slice * Slice) :=
  omap (fun e => match e with EvAdd key value => Some (key, value) | _ => None end) tr.

Definition calls (which : event -> bool) (tr : list event) : nat :=
  length (List.filter which tr).

Definition is_NewWritableFile (e : event) : bool :=
  match e with EvNewWritableFile _ _ => true | _ => false end.
Definition is_NewTableBuilder (e : event) : bool :=
  match e with EvNewTableBuilder => true | _ => false end.
Definition is_DeleteBuilder (e : event) : bool :=
  match e with EvDeleteBuilder => true | _ => false end.
Definition is_DeleteFileObject (e : event) : bool :=
  match e with EvDeleteFileObject => true | _ => false end.
Definition is_DeleteFile (e : event) : bool :=
  match e with EvDeleteFile _ => true | _ => false end.

(** The first status of [ss] that is not OK; OK when there is none. *)
Definition first_error (ss : list Status) : Status :=
  match List.find (fun s => negb (ok s)) ss with
  | Some s => s
  | None => OK
  end.

End BuilderTrace.

(** ** db/db_impl.h: [DBImpl::CompactionStats] *)

Module CompactionStats.

(** [int64_t] addition; [None] where the sum overflows, which is undefined
    for a signed type. *)
Definition add_int64 (a b : Z) : option Z :=
  let r := a + b in
  if (- 2 ^ 63 <=? r) && (r <? 2 ^ 63) then Some r else None.

Record t := mkCompactionStats {
  micros : Z;          (* int64_t *)
  bytes_read : Z;      (* int64_t *)
  bytes_written : Z    (* int64_t *)
}.

(** [CompactionStats()]. *)
Definition new : t := {| micros := 0; bytes_read := 0; bytes_written := 0 |}.

(** [this->Add(c)]: the three [+=], in order. *)
Definition Add (this c : t) : option t :=
  match add_int64 (micros this) (micros c) with
  | None => None
  | Some m =>
      match add_int64 (bytes_read this) (bytes_read c) with
      | None => None
      | Some r =>
          match add_int64 (bytes_written this) (bytes_written c) with
          | None => None
          | Some w => Some {| micros := m; bytes_read := r; bytes_written := w |}
          end
      end
  end.

(** [Add] called for each of [cs] in turn, as on one entry of [stats_]. *)
Fixpoint Add_all (this : t) (cs : list t) : option t :=
  match cs with
  | [] => Some this
  | c :: cs' =>
      match Add this c with
      | None => None
      | Some this' => Add_all this' cs'
      end
  end.

Definition sumZ (l : list Z) : Z := foldr Z.add 0 l.

(** Stats as a compaction reports them: counts, not below zero and within
    [int64_t]. *)
Definition counts (c : t) : Prop :=
  0 <= micros c < 2 ^ 63 /\ 0 <= bytes_read c < 2 ^ 63 /\ 0 <= bytes_written c < 2 ^ 63.

Definition fits (x : Z) : bool := x <? 2 ^ 63.

End CompactionStats.

(** ** Further inputs for the examples *)

Module MoreExamples.

Import Examples.

(** The filter of [two_keys] under [policy10] and [toy_Hash]. *)
Definition filter10 : list Z := [2; 160; 136; 8; 128; 32; 42; 0; 6].

(** The policy built from twenty bits per key. *)
Definition policy20 : Bloom.BloomFilterPolicy_t :=
  {| Bloom.bits_per_key_ := 20; Bloom.k_ := 13 |}.

(** The policy built from [-1]. *)
Definition policy_minus_1 : Bloom.BloomFilterPolicy_t :=
  {| Bloom.bits_per_key_ := 2 ^ 64 - 1; Bloom.k_ := 1 |}.

Definition stats_a : CompactionStats.t :=
  {| CompactionStats.micros := 1500; CompactionStats.bytes_read := 4096;
     CompactionStats.bytes_written := 2048 |}.
Definition stats_b : CompactionStats.t :=
  {| CompactionStats.micros := 700; CompactionStats.bytes_read := 0;
     CompactionStats.bytes_written := 512 |}.

End MoreExamples.

(** * Properties *)

(** ** The models at work *)

Module Runs.

Import Examples.

(** [100 * 0.69] is [69.0] in binary64. *)
Example double_100 :
  Double.mul (Double.of_int 100) Double.d0_69 = S754_finite false 4855443348258816 (-46).
Proof. reflexivity. Qed.

Example policy_10 : Bloom.BloomFilterPolicy 10 = Some policy10.
Proof. reflexivity. Qed.

(** [-0.69] truncates to 0; [-1.38] has no [size_t]. *)
Example policy_minus_1 :
  Bloom.BloomFilterPolicy (-1)
  = Some {| Bloom.bits_per_key_ := 2 ^ 64 - 1; Bloom.k_ := 1 |}.
Proof. reflexivity. Qed.

Example policy_minus_2 : Bloom.BloomFilterPolicy (-2) = None.
Proof. reflexivity. Qed.

Example filter_two_keys :
  Bloom.CreateFilter toy_Hash policy10 two_keys [] = Some [2; 160; 136; 8; 128; 32; 42; 0; 6].
Proof. reflexivity. Qed.

Example filter_answers :
  map (fun key => Bloom.KeyMayMatch toy_Hash policy10 key [2; 160; 136; 8; 128; 32; 42; 0; 6])
      [key_a; key_bc; [Byte.x64]; []]
  = [true; true; false; false].
Proof. reflexivity. Qed.

(** A bit count that wraps to zero: [h % bits] has no value. *)
Example filter_no_bits :
  Bloom.CreateFilter toy_Hash {| Bloom.bits_per_key_ := 2 ^ 64 - 1; Bloom.k_ := 1 |}
    [key_a] [] = None.
Proof. reflexivity. Qed.

Example build_two_entries :
  Builder.BuildTable TableFileName new_TableBuilder "db" good_env good_cache good_iter meta7
  = Builder.Returns OK
      {| Builder.allowed_seeks := 0; Builder.number := 7; Builder.file_size := 50;
         Builder.smallest := key_a; Builder.largest := key_bc |}
      [Builder.EvNewWritableFile "db/7.ldb" OK; Builder.EvNewTableBuilder;
       Builder.EvAdd key_a key_bc; Builder.EvAdd key_bc key_a;
       Builder.EvFinish OK; Builder.EvFileSize 50; Builder.EvDeleteBuilder;
       Builder.EvSync OK; Builder.EvClose OK; Builder.EvDeleteFileObject;
       Builder.EvNewIterator 7 50 OK].
Proof. reflexivity. Qed.

(** Three passes: the sleep, the switch to a new log, the return. *)
Example room_after_one_sleep :
  (DBImpl.MakeRoomForWrite 5 (fun _ d => d) false busy).1.1 = Some OK
  /\ (DBImpl.MakeRoomForWrite 5 (fun _ d => d) false busy).2
     = [DBImpl.SleepForMicroseconds 1000; DBImpl.NewLogFile 8; DBImpl.Schedule_BGWork].
Proof. split; reflexivity. Qed.

End Runs.

(** ** Rounding of the binary64 product *)

Module DoubleFacts.
Import Double.

Lemma digits2_pos_size p : digits2_pos p = Pos.size p.
Proof. induction p; simpl; congruence. Qed.

Lemma digits2_bounds p :
  2 ^ (Zpos (digits2_pos p) - 1) <= Zpos p < 2 ^ Zpos (digits2_pos p).
Proof.
  rewrite digits2_pos_size.
  pose proof (Pos.size_gt p) as Hgt. pose proof (Pos.size_le p) as Hle.
  split.
  - assert (H : 2 ^ Zpos (Pos.size p) <= 2 * Zpos p).
    { rewrite <- Pos2Z.inj_pow. change (2 * Zpos p) with (Zpos (p~0)). lia. }
    replace (Zpos (Pos.size p)) with (Zpos (Pos.size p) - 1 + 1) in H by lia.
    rewrite Z.pow_add_r in H by lia. lia.
  - rewrite <- Pos2Z.inj_pow. lia.
Qed.

Lemma shr_1_m mrs : 0 <= shr_m mrs -> shr_m (shr_1 mrs) = shr_m mrs / 2.
Proof.
  destruct mrs as [m r s]; simpl. intros Hm.
  destruct m as [|[p|p|]|p]; cbn -[Z.div]; try lia; try reflexivity.
  - apply Z.div_unique with 1; lia.
  - apply Z.div_unique with 0; lia.
Qed.

Lemma iter_shr_1_m p : forall mrs,
  0 <= shr_m mrs ->
  shr_m (SpecFloat.iter_pos shr_1 p mrs) = shr_m mrs / 2 ^ Zpos p.
Proof.
  induction p as [p IH|p IH|]; intros mrs Hm; simpl SpecFloat.iter_pos.
  - assert (H1 : 0 <= shr_m (shr_1 mrs)) by (rewrite shr_1_m by done; apply Z.div_pos; lia).
    assert (H2 : 0 <= shr_m (SpecFloat.iter_pos shr_1 p (shr_1 mrs))).
    { rewrite IH by done. apply Z.div_pos; lia. }
    rewrite IH, IH, shr_1_m by done.
    rewrite !Z.div_div by lia. f_equal.
    replace (Zpos p~1) with (1 + Zpos p + Zpos p) by lia.
    rewrite !Z.pow_add_r by lia. lia.
  - assert (H2 : 0 <= shr_m (SpecFloat.iter_pos shr_1 p mrs)).
    { rewrite IH by done. apply Z.div_pos; lia. }
    rewrite IH, IH by done.
    rewrite !Z.div_div by lia. f_equal.
    replace (Zpos p~0) with (Zpos p + Zpos p) by lia.
    rewrite !Z.pow_add_r by lia. lia.
  - rewrite shr_1_m by done. reflexivity.
Qed.

Lemma shr_m_shift mrs e n :
  0 <= shr_m mrs -> 0 <= n ->
  shr_m (shr mrs e n).1 = shr_m mrs / 2 ^ n /\ (shr mrs e n).2 = e + n.
Proof.
  intros Hm Hn. destruct n as [|p|p]; simpl; try lia.
  - rewrite Z.div_1_r. lia.
  - split; [apply iter_shr_1_m; done | reflexivity].
Qed.

Lemma round_nearest_even_bounds m l :
  m <= round_nearest_even m l <= m + 1.
Proof. destruct l as [|[]]; simpl; try lia. destruct (Z.even m); lia. Qed.

(** Rounding a product mantissa of 53 to 84 bits at exponent -53: the
    result is finite and within one unit in the last place. *)
Lemma binary_round_aux_product mx :
  2 ^ 52 <= Zpos mx < 2 ^ 84 ->
  exists m e,
    binary_round_aux prec emax false (Zpos mx) (-53) loc_Exact = S754_finite false m e
    /\ -53 <= e < 0
    /\ 2 ^ 52 * (Zpos m * 2 ^ (e + 53) - Zpos mx) <= Zpos mx
    /\ 2 ^ 52 * (Zpos mx - Zpos m * 2 ^ (e + 53)) <= Zpos mx.
Proof.
  intros Hmx.
  pose proof (digits2_bounds mx) as Hd.
  set (d := Zpos (digits2_pos mx)) in *.
  assert (Hd53 : 53 <= d <= 84).
  { split.
    - destruct (Z_lt_le_dec 52 d) as [|Hle]; [lia|].
      assert (2 ^ d <= 2 ^ 52) by (apply Z.pow_le_mono_r; lia). lia.
    - destruct (Z_lt_le_dec 84 d) as [Hlt|]; [|lia].
      assert (2 ^ 84 <= 2 ^ (d - 1)) by (apply Z.pow_le_mono_r; lia). lia. }
  set (s := d - 53).
  assert (HP : 2 ^ (d - 1) = 2 ^ 52 * 2 ^ s /\ 2 ^ d = 2 ^ 53 * 2 ^ s).
  { unfold s. rewrite <- !Z.pow_add_r by lia. split; f_equal; lia. }
  destruct HP as [HP1 HP2]. rewrite HP1, HP2 in Hd.
  assert (HPpos : 0 < 2 ^ s) by (apply Z.pow_pos_nonneg; lia).
  unfold binary_round_aux, shr_fexp.
  cbn [Zdigits2 shr_record_of_loc]. fold d.
  replace (fexp prec emax (d + -53) - -53) with s
    by (unfold fexp, emin, prec, emax, s; lia).
  destruct (shr_m_shift {| shr_m := Zpos mx; shr_r := false; shr_s := false |} (-53) s)
    as [Hm1 He1]; [simpl; lia | unfold s; lia |].
  destruct (shr _ (-53) s) as [mrs1 e1]. cbn [fst snd shr_m] in Hm1, He1.
  set (l1 := loc_of_shr_record mrs1).
  pose proof (round_nearest_even_bounds (shr_m mrs1) l1) as Hr.
  set (r := round_nearest_even (shr_m mrs1) l1) in *.
  set (P := 2 ^ s) in *.
  assert (Hdiv : P * shr_m mrs1 <= Zpos mx < P * shr_m mrs1 + P).
  { rewrite Hm1. pose proof (Z.mul_div_le (Zpos mx) P HPpos).
    pose proof (Z.mul_succ_div_gt (Zpos mx) P HPpos). lia. }
  assert (Hm1b : 2 ^ 52 <= shr_m mrs1 < 2 ^ 53) by nia.
  destruct r as [|rp|rp] eqn:Er; try lia.
  cbn [Zdigits2].
  pose proof (digits2_bounds rp) as Hd2.
  set (d2 := Zpos (digits2_pos rp)) in *.
  assert (Hd2c : d2 = 53 \/ d2 = 54).
  { destruct (Z_lt_le_dec d2 53) as [Hlt|Hge].
    - assert (2 ^ d2 <= 2 ^ 52) by (apply Z.pow_le_mono_r; lia). lia.
    - destruct (Z_lt_le_dec 54 d2) as [Hlt|]; [|lia].
      assert (2 ^ 54 <= 2 ^ (d2 - 1)) by (apply Z.pow_le_mono_r; lia). lia. }
  replace (fexp prec emax (d2 + e1) - e1) with (d2 - 53)
    by (unfold fexp, emin, prec, emax; lia).
  destruct (shr_m_shift {| shr_m := Zpos rp; shr_r := false; shr_s := false |} e1 (d2 - 53))
    as [Hm2 He2]; [simpl; lia | lia |].
  destruct (shr _ e1 (d2 - 53)) as [mrs2 e2]. cbn [fst snd shr_m] in Hm2, He2.
  assert (Hexact : shr_m mrs2 * 2 ^ (e2 + 53) = Zpos rp * P /\ 0 < shr_m mrs2).
  { destruct Hd2c as [E|E]; rewrite E in *.
    - change (2 ^ (53 - 53)) with 1 in Hm2. rewrite Z.div_1_r in Hm2.
      rewrite Hm2. replace (e2 + 53) with s by lia. fold P. lia.
    - change (2 ^ (54 - 53)) with 2 in Hm2.
      change (2 ^ (54 - 1)) with (2 ^ 53) in Hd2.
      assert (Zpos rp = 2 ^ 53) by lia.
      assert (shr_m mrs2 = 2 ^ 52) by (rewrite Hm2; replace (Zpos rp) with (2 ^ 53) by done; reflexivity).
      replace (e2 + 53) with (1 + s) by lia.
      rewrite Z.pow_add_r by (unfold s; lia). fold P. lia. }
  destruct Hexact as [Hexact Hpos2].
  destruct (shr_m mrs2) as [|m2|m2] eqn:Em2; try lia.
  replace (e2 <=? emax - prec) with true
    by (symmetry; apply Z.leb_le; unfold emax, prec, s in *; lia).
  exists m2, e2. split; [reflexivity|].
  split; [unfold s in *; lia|].
  rewrite Hexact. nia.
Qed.

(** [bits_per_key * 0.69] for an [int] from 44 on: at least 30 after
    truncation, and within [size_t]. *)
Lemma product_large (p : positive) :
  44 <= Zpos p < 2 ^ 31 ->
  exists v, to_size_t (mul (of_int (Zpos p)) d0_69) = Some v /\ 30 <= v.
Proof.
  intros Hp.
  destruct (binary_round_aux_product (p * 6214967485771284)) as (m & e & Hr & He & Hhi & Hlo).
  { rewrite Pos2Z.inj_mul. lia. }
  unfold mul, of_int, d0_69, SFmul. cbn [xorb]. rewrite Z.add_0_l, Hr.
  unfold to_size_t, truncate.
  replace (0 <=? e) with false by (symmetry; apply Z.leb_gt; lia).
  set (M := Zpos m * 2 ^ (e + 53)) in *.
  assert (Hq : Zpos m / 2 ^ (- e) = M / 2 ^ 53).
  { unfold M. replace (2 ^ 53) with (2 ^ (- e) * 2 ^ (e + 53))
      by (rewrite <- Z.pow_add_r by lia; f_equal; lia).
    rewrite Z.div_mul_cancel_r; [reflexivity| |];
      apply Z.pow_nonzero; lia. }
  rewrite Hq. rewrite Pos2Z.inj_mul in Hhi, Hlo.
  assert (Hv : 30 <= M / 2 ^ 53 < 2 ^ 64).
  { split.
    - apply Z.div_le_lower_bound; lia.
    - apply Z.div_lt_upper_bound; lia. }
  exists (M / 2 ^ 53).
  replace (0 <=? M / 2 ^ 53) with true by (symmetry; apply Z.leb_le; lia).
  replace (M / 2 ^ 53 <? 2 ^ 64) with true by (symmetry; apply Z.ltb_lt; lia).
  split; [reflexivity | lia].
Qed.

End DoubleFacts.

(** ** The constructor of the policy *)

Module PolicyFacts.
Import Bloom BloomSpec.

Lemma policy_eqb_eq p q : policy_eqb p q = true -> p = q.
Proof.
  destruct p, q. unfold policy_eqb. simpl. intros H.
  apply andb_true_iff in H as [H1 H2].
  apply Z.eqb_eq in H1, H2. congruence.
Qed.

Lemma constructor_small : forallb constructor_agrees (seq 0 44) = true.
Proof. vm_compute. reflexivity. Qed.

Lemma BloomFilterPolicy_nonneg bits_per_key :
  0 <= bits_per_key < 2 ^ 31 ->
  BloomFilterPolicy bits_per_key = Some (expected_policy bits_per_key).
Proof.
  intros Hb. destruct (Z_lt_le_dec bits_per_key 44) as [Hsmall|Hlarge].
  - pose proof constructor_small as H. rewrite forallb_forall in H.
    specialize (H (Z.to_nat bits_per_key)).
    unfold constructor_agrees in H. rewrite Z2Nat.id in H by lia.
    destruct (BloomFilterPolicy bits_per_key) as [p|].
    + f_equal. apply policy_eqb_eq, H. apply in_seq. lia.
    + discriminate H. apply in_seq. lia.
  - destruct bits_per_key as [|p|p]; try lia.
    destruct (DoubleFacts.product_large p ltac:(lia)) as (v & Hv & Hv30).
    unfold BloomFilterPolicy. rewrite Hv. unfold expected_policy. f_equal. f_equal.
    + unfold wrap64. apply Z.mod_small. lia.
    + assert (30 <= Zpos p * 69 / 100) by (apply Z.div_le_lower_bound; lia).
      destruct (v <? 1) eqn:E1; [apply Z.ltb_lt in E1; lia|].
      destruct (30 <? v) eqn:E2; [lia|]. apply Z.ltb_ge in E2. lia.
Qed.

(** Whatever [int] it is built from, a policy probes 1 to 30 times. *)
Lemma BloomFilterPolicy_k bits_per_key p :
  BloomFilterPolicy bits_per_key = Some p -> 1 <= k_ p <= 30.
Proof.
  unfold BloomFilterPolicy. destruct (Double.to_size_t _) as [k|]; [|discriminate].
  intros H. inversion H; subst; clear H. simpl.
  destruct (k <? 1) eqn:E1.
  - simpl. lia.
  - apply Z.ltb_ge in E1. destruct (30 <? k) eqn:E2; [lia|]. apply Z.ltb_ge in E2. lia.
Qed.

End PolicyFacts.

(** ** CreateFilter and KeyMayMatch *)

Module BloomFacts.
Section WithHash.
Import Bloom BloomSpec.
Variable Hash : Slice -> Z -> Z.

Local Abbreviation set_probes := (Bloom.set_probes).
Local Abbreviation add_keys := (Bloom.add_keys Hash).
Local Abbreviation CreateFilter := (Bloom.CreateFilter Hash).
Local Abbreviation KeyMayMatch := (Bloom.KeyMayMatch Hash).

Lemma covers_refl a : covers a a.
Proof. intros i c H. exists c. auto. Qed.

Lemma covers_trans a b c : covers a b -> covers b c -> covers a c.
Proof.
  intros Hab Hbc i x Hx.
  destruct (Hab i x Hx) as (y & Hy & Hxy).
  destruct (Hbc i y Hy) as (z & Hz & Hyz).
  exists z. split; [done|]. auto.
Qed.

Lemma testbit_or_mask c b n :
  0 <= n < 8 ->
  Z.testbit (wrap8 (Z.lor c (Z.shiftl 1 b))) n
  = Z.testbit c n || Z.testbit (Z.shiftl 1 b) n.
Proof.
  intros Hn. unfold wrap8.
  rewrite Z.mod_pow2_bits_low by lia. apply Z.lor_spec.
Qed.

Lemma testbit_mask b : 0 <= b -> Z.testbit (Z.shiftl 1 b) b = true.
Proof.
  intros Hb. rewrite Z.shiftl_spec by lia.
  replace (b - b) with 0 by lia. reflexivity.
Qed.

Lemma land_mask_nonzero c b :
  0 <= b -> Z.testbit c b = true -> Z.land c (Z.shiftl 1 b) <> 0.
Proof.
  intros Hb Hc Hz.
  assert (H : Z.testbit (Z.land c (Z.shiftl 1 b)) b = true)
    by (rewrite Z.land_spec, Hc, testbit_mask by done; reflexivity).
  rewrite Hz in H. rewrite Z.bits_0 in H. discriminate.
Qed.

Lemma covers_insert (dst : list Z) (i : nat) c b :
  dst !! i = Some c ->
  covers dst (<[i := wrap8 (Z.lor c (Z.shiftl 1 b))]> dst).
Proof.
  intros Hi j x Hx. destruct (decide (i = j)) as [->|Hne].
  - exists (wrap8 (Z.lor c (Z.shiftl 1 b))). split.
    + apply list_lookup_insert_eq. by eapply lookup_lt_Some.
    + intros n Hn Hb. rewrite testbit_or_mask by done.
      assert (x = c) by congruence. subst x. rewrite Hb. reflexivity.
  - exists x. rewrite list_lookup_insert_ne by done. auto.
Qed.

Lemma bitpos_range h bits :
  0 < bits -> 0 <= wrap32 (h mod bits) < bits.
Proof.
  intros Hb. unfold wrap32.
  pose proof (Z.mod_pos_bound h bits Hb) as H1.
  pose proof (Z.mod_pos_bound (h mod bits) (2 ^ 32) ltac:(lia)) as H2.
  assert (h mod bits mod 2 ^ 32 <= h mod bits) by (apply Z.mod_le; lia).
  lia.
Qed.

Lemma bitpos_byte h bits nbytes :
  0 < bits -> bits <= 8 * nbytes ->
  (Z.to_nat (wrap32 (h mod bits) / 8) < Z.to_nat nbytes)%nat.
Proof.
  intros Hb Hn. pose proof (bitpos_range h bits Hb) as Hr.
  assert (0 <= wrap32 (h mod bits) / 8 < nbytes).
  { split; [apply Z.div_pos; lia|]. apply Z.div_lt_upper_bound; lia. }
  lia.
Qed.

(** *** The inner loop *)

Lemma set_probes_covers j : forall h delta bits init dst dst',
  set_probes j h delta bits init dst = Some dst' -> covers dst dst'.
Proof.
  induction j as [|j IH]; intros h delta bits init dst dst' H; simpl in H.
  - inversion H. apply covers_refl.
  - destruct (bits =? 0); [discriminate|].
    destruct (dst !! _) as [c|] eqn:Hc; [|discriminate].
    eapply covers_trans; [|eapply IH, H].
    by apply covers_insert.
Qed.

Lemma set_probes_length j : forall h delta bits init dst dst',
  set_probes j h delta bits init dst = Some dst' -> length dst' = length dst.
Proof.
  induction j as [|j IH]; intros h delta bits init dst dst' H; simpl in H.
  - by inversion H.
  - destruct (bits =? 0); [discriminate|].
    destruct (dst !! _) as [c|]; [|discriminate].
    apply IH in H. by rewrite length_insert in H.
Qed.

(** Only the [nbytes] bytes of the bit array are written. *)
Lemma set_probes_frame j : forall h delta bits init nbytes dst dst',
  0 <= bits <= 8 * nbytes ->
  set_probes j h delta bits init dst = Some dst' ->
  forall i : nat, (i < init \/ init + Z.to_nat nbytes <= i)%nat -> dst' !! i = dst !! i.
Proof.
  induction j as [|j IH]; intros h delta bits init nbytes dst dst' Hn H i Hi; simpl in H.
  - by inversion H.
  - destruct (bits =? 0) eqn:Hb; [discriminate|]. apply Z.eqb_neq in Hb.
    destruct (dst !! _) as [c|]; [|discriminate].
    rewrite (IH _ _ _ _ _ _ _ Hn H i Hi).
    pose proof (bitpos_byte h bits nbytes ltac:(lia) ltac:(lia)).
    apply list_lookup_insert_ne. lia.
Qed.

Lemma set_probes_Some j : forall h delta bits init nbytes dst,
  0 < bits -> bits <= 8 * nbytes ->
  (init + Z.to_nat nbytes <= length dst)%nat ->
  is_Some (set_probes j h delta bits init dst).
Proof.
  induction j as [|j IH]; intros h delta bits init nbytes dst Hb Hn Hl; simpl.
  - eauto.
  - replace (bits =? 0) with false by (symmetry; apply Z.eqb_neq; lia).
    pose proof (bitpos_byte h bits nbytes Hb Hn) as Hi.
    destruct (lookup_lt_is_Some_2 dst (init + Z.to_nat (wrap32 (h mod bits) / 8))%nat) as [c Hc];
      [lia|].
    rewrite Hc. eapply IH; eauto. rewrite length_insert. lia.
Qed.

Lemma set_probes_test j : forall h delta bits init dst dst' f,
  set_probes j h delta bits init dst = Some dst' ->
  covers dst' f ->
  test_probes j h delta bits (drop init f) = true.
Proof.
  induction j as [|j IH]; intros h delta bits init dst dst' f H Hf; simpl in *.
  - reflexivity.
  - destruct (bits =? 0) eqn:Hb; [discriminate|]. apply Z.eqb_neq in Hb.
    set (bitpos := wrap32 (h mod bits)) in *.
    set (i := (init + Z.to_nat (bitpos / 8))%nat) in *.
    destruct (dst !! i) as [c|] eqn:Hc; [|discriminate].
    set (b := bitpos mod 8) in *.
    assert (Hbr : 0 <= b < 8) by (apply Z.mod_pos_bound; lia).
    pose proof (set_probes_covers _ _ _ _ _ _ _ H) as Hcov.
    destruct (Hcov i (wrap8 (Z.lor c (Z.shiftl 1 b)))) as (c1 & Hc1 & Hbits1).
    { apply list_lookup_insert_eq. by eapply lookup_lt_Some. }
    destruct (Hf i c1 Hc1) as (c2 & Hc2 & Hbits2).
    assert (Hget : drop init f !!! Z.to_nat (bitpos / 8) = c2).
    { apply list_lookup_total_correct. rewrite lookup_drop. exact Hc2. }
    rewrite Hget.
    assert (Hset : Z.testbit c2 b = true).
    { apply Hbits2, Hbits1; try done.
      rewrite testbit_or_mask by done. rewrite testbit_mask by lia.
      apply orb_true_r. }
    pose proof (land_mask_nonzero c2 b ltac:(lia) Hset) as Hnz.
    apply Z.eqb_neq in Hnz. rewrite Hnz.
    eapply IH; eauto.
Qed.

(** *** The outer loop *)

Lemma add_keys_covers p keys : forall bits init dst dst',
  add_keys p keys bits init dst = Some dst' -> covers dst dst'.
Proof.
  induction keys as [|key keys IH]; intros bits init dst dst' H; simpl in H.
  - inversion H. apply covers_refl.
  - destruct (set_probes _ _ _ _ _ _) as [dst1|] eqn:H1; [|discriminate].
    eapply covers_trans; [eapply set_probes_covers, H1 | eapply IH, H].
Qed.

Lemma add_keys_length p keys : forall bits init dst dst',
  add_keys p keys bits init dst = Some dst' -> length dst' = length dst.
Proof.
  induction keys as [|key keys IH]; intros bits init dst dst' H; simpl in H.
  - by inversion H.
  - destruct (set_probes _ _ _ _ _ _) as [dst1|] eqn:H1; [|discriminate].
    apply IH in H. apply set_probes_length in H1. congruence.
Qed.

Lemma add_keys_frame p keys : forall bits init nbytes dst dst',
  0 <= bits <= 8 * nbytes ->
  add_keys p keys bits init dst = Some dst' ->
  forall i : nat, (i < init \/ init + Z.to_nat nbytes <= i)%nat -> dst' !! i = dst !! i.
Proof.
  induction keys as [|key keys IH]; intros bits init nbytes dst dst' Hn H i Hi; simpl in H.
  - by inversion H.
  - destruct (set_probes _ _ _ _ _ _) as [dst1|] eqn:H1; [|discriminate].
    rewrite (IH _ _ _ _ _ Hn H i Hi).
    eapply set_probes_frame; eauto.
Qed.

Lemma add_keys_Some p keys : forall bits init nbytes dst,
  0 < bits -> bits <= 8 * nbytes ->
  (init + Z.to_nat nbytes <= length dst)%nat ->
  is_Some (add_keys p keys bits init dst).
Proof.
  induction keys as [|key keys IH]; intros bits init nbytes dst Hb Hn Hl; simpl.
  - eauto.
  - destruct (set_probes_Some (Z.to_nat (k_ p)) (BloomHash Hash key)
                (rotate_right_17 (BloomHash Hash key)) bits init nbytes dst Hb Hn Hl)
      as [dst1 H1].
    rewrite H1. eapply IH; eauto.
    apply set_probes_length in H1. lia.
Qed.

Lemma add_keys_test p keys key : forall bits init dst dst',
  key ∈ keys ->
  add_keys p keys bits init dst = Some dst' ->
  test_probes (Z.to_nat (k_ p)) (BloomHash Hash key)
    (rotate_right_17 (BloomHash Hash key)) bits (drop init dst') = true.
Proof.
  induction keys as [|key' keys IH]; intros bits init dst dst' Hin H; simpl in H.
  - by apply elem_of_nil in Hin.
  - destruct (set_probes _ _ _ _ _ _) as [dst1|] eqn:H1; [|discriminate].
    apply elem_of_cons in Hin as [->|Hin].
    + eapply set_probes_test; [exact H1|]. eapply add_keys_covers, H.
    + eapply IH; eauto.
Qed.

(** With a key to add and a probe to make, an empty bit array is a
    division by zero. *)
Lemma add_keys_bits_nonzero p keys bits init dst dst' :
  keys <> [] -> 1 <= k_ p ->
  add_keys p keys bits init dst = Some dst' -> bits <> 0.
Proof.
  intros Hk Hp H Hb. destruct keys as [|key keys]; [done|]. simpl in H.
  destruct (Z.to_nat (k_ p)) as [|j] eqn:Hj; [lia|].
  simpl in H. subst bits. discriminate.
Qed.

(** *** Sizes *)

Lemma filter_bytes_nonneg p n : 0 <= filter_bytes p n.
Proof.
  unfold filter_bytes, wrap64. apply Z.div_pos; [|lia].
  apply Z.mod_pos_bound. lia.
Qed.

Lemma filter_bits_bound p n :
  0 <= wrap64 (filter_bytes p n * 8) <= 8 * filter_bytes p n.
Proof.
  pose proof (filter_bytes_nonneg p n). unfold wrap64 at 1 2. split.
  - apply Z.mod_pos_bound. lia.
  - etrans; [apply Z.mod_le; lia | lia].
Qed.

Lemma CreateFilter_unfold p keys dst :
  CreateFilter p keys dst
  = add_keys p keys (wrap64 (filter_bytes p (Z.of_nat (length keys)) * 8)) (length dst)
      ((dst ++ replicate (Z.to_nat (filter_bytes p (Z.of_nat (length keys)))) 0)
       ++ [wrap8 (k_ p)]).
Proof. reflexivity. Qed.

(** The shape of the result: [dst], then the bit array, then the byte
    holding [k_]. *)
Lemma CreateFilter_shape p keys dst f :
  CreateFilter p keys dst = Some f ->
  exists array,
    f = dst ++ array ++ [wrap8 (k_ p)]
    /\ length array = Z.to_nat (filter_bytes p (Z.of_nat (length keys))).
Proof.
  rewrite CreateFilter_unfold. intros H.
  set (nb := filter_bytes p (Z.of_nat (length keys))) in *.
  pose proof (filter_bits_bound p (Z.of_nat (length keys))) as Hb. fold nb in Hb.
  pose proof (add_keys_length _ _ _ _ _ _ H) as Hlen.
  pose proof (add_keys_frame _ _ _ _ nb _ _ Hb H) as Hfr.
  rewrite !length_app, length_replicate in Hlen. simpl in Hlen.
  exists (take (Z.to_nat nb) (drop (length dst) f)).
  assert (Hal : length (take (Z.to_nat nb) (drop (length dst) f)) = Z.to_nat nb).
  { rewrite length_take, length_drop. lia. }
  split; [|exact Hal].
  apply list_eq. intros i.
  destruct (decide (i < length dst)%nat) as [Hi|Hi].
  - rewrite Hfr by lia. rewrite <- app_assoc.
    rewrite !lookup_app_l by done. reflexivity.
  - rewrite lookup_app_r by lia.
    destruct (decide (i < length dst + Z.to_nat nb)%nat) as [Hi2|Hi2].
    + rewrite lookup_app_l by lia.
      rewrite lookup_take_lt by lia. rewrite lookup_drop. f_equal. lia.
    + rewrite lookup_app_r by lia. rewrite Hal.
      rewrite Hfr by lia.
      rewrite lookup_app_r by (rewrite length_app, length_replicate; lia).
      rewrite length_app, length_replicate. f_equal. lia.
Qed.

(** Without wrap-around the bit array has [ceil(max(64, n * bits_per_key) / 8)]
    bytes: the least [bytes] with [8 * bytes] at least that many bits. *)
Lemma filter_bytes_ceil p n :
  0 <= n < 2 ^ 31 -> 0 <= bits_per_key_ p < 2 ^ 31 ->
  8 * (filter_bytes p n - 1) < Z.max 64 (n * bits_per_key_ p) <= 8 * filter_bytes p n.
Proof.
  intros Hn Hb.
  assert (Hprod : 0 <= n * bits_per_key_ p < 2 ^ 62) by nia.
  assert (E : filter_bytes p n = (Z.max 64 (n * bits_per_key_ p) + 7) / 8).
  { unfold filter_bytes, wrap64. rewrite (Z.mod_small (n * bits_per_key_ p)) by lia.
    destruct (n * bits_per_key_ p <? 64) eqn:E; [apply Z.ltb_lt in E | apply Z.ltb_ge in E].
    - rewrite Z.max_l by lia. reflexivity.
    - rewrite Z.max_r by lia. rewrite Z.mod_small by lia. reflexivity. }
  rewrite E.
  pose proof (Z.div_mod (Z.max 64 (n * bits_per_key_ p) + 7) 8 ltac:(lia)).
  pose proof (Z.mod_pos_bound (Z.max 64 (n * bits_per_key_ p) + 7) 8 ltac:(lia)).
  lia.
Qed.

Lemma CreateFilter_Some p keys dst :
  Z.of_nat (length keys) < 2 ^ 31 -> 0 <= bits_per_key_ p < 2 ^ 31 ->
  is_Some (CreateFilter p keys dst).
Proof.
  intros Hn Hb. rewrite CreateFilter_unfold.
  pose proof (filter_bytes_ceil p (Z.of_nat (length keys)) ltac:(lia) Hb) as Hc.
  set (nb := filter_bytes p (Z.of_nat (length keys))) in *.
  assert (Hnb : 8 <= nb < 2 ^ 60) by nia.
  eapply add_keys_Some with (nbytes := nb).
  - unfold wrap64. rewrite Z.mod_small; lia.
  - unfold wrap64. rewrite Z.mod_small; lia.
  - rewrite !length_app, length_replicate. simpl. lia.
Qed.

(** C1: no false negatives.  For any [int bits_per_key], any keys and any
    buffer [dst]: whenever the policy is constructed and [CreateFilter]
    produces a filter (the bytes appended to [dst]), [KeyMayMatch] answers
    true for every key of the list; and for a non-negative [bits_per_key]
    both the policy and the filter are produced. *)
Theorem bloom_no_false_negatives (bits_per_key : Z) (keys : list Slice)
    (key : Slice) (dst : list Z) :
  key ∈ keys ->
  (forall p f,
      BloomFilterPolicy bits_per_key = Some p ->
      CreateFilter p keys dst = Some f ->
      KeyMayMatch p key (drop (length dst) f) = true)
  /\ (0 <= bits_per_key < 2 ^ 31 -> Z.of_nat (length keys) < 2 ^ 31 ->
      exists p f,
        BloomFilterPolicy bits_per_key = Some p /\ CreateFilter p keys dst = Some f).
Proof.
  intros Hin. split.
  - intros p f Hp Hf.
    pose proof (PolicyFacts.BloomFilterPolicy_k _ _ Hp) as Hk.
    destruct (CreateFilter_shape _ _ _ _ Hf) as (array & Hshape & Hlen).
    rewrite CreateFilter_unfold in Hf.
    set (nb := filter_bytes p (Z.of_nat (length keys))) in *.
    pose proof (filter_bytes_nonneg p (Z.of_nat (length keys))) as Hnb0. fold nb in Hnb0.
    assert (Hbits : wrap64 (nb * 8) <> 0).
    { apply (add_keys_bits_nonzero p keys _ _ _ _ ltac:(by intros ->; apply elem_of_nil in Hin)
               ltac:(lia) Hf). }
    assert (Hnb1 : 1 <= nb).
    { destruct (Z_lt_le_dec nb 1); [|done]. assert (nb = 0) as E by lia.
      rewrite E in Hbits. by compute in Hbits. }
    pose proof (add_keys_test _ _ _ _ _ _ _ Hin Hf) as Htest.
    assert (Hdrop : drop (length dst) f = array ++ [wrap8 (k_ p)]).
    { rewrite Hshape. by rewrite drop_app_length. }
    rewrite Hdrop in *. clear Hdrop.
    unfold KeyMayMatch.
    assert (Hl : Z.of_nat (length (array ++ [wrap8 (k_ p)])) = nb + 1).
    { rewrite length_app. simpl. lia. }
    rewrite Hl.
    replace (nb + 1 <? 2) with false by (symmetry; apply Z.ltb_ge; lia).
    replace (nb + 1 - 1) with nb by lia.
    assert (Hlast : (array ++ [wrap8 (k_ p)]) !!! Z.to_nat nb = k_ p).
    { apply list_lookup_total_correct.
      rewrite lookup_app_r by lia. rewrite Hlen, Nat.sub_diag. simpl.
      f_equal. unfold wrap8. apply Z.mod_small. lia. }
    rewrite Hlast.
    assert (Hc : char_to_size_t (k_ p) = k_ p).
    { unfold char_to_size_t.
      replace (k_ p <? 128) with true by (symmetry; apply Z.ltb_lt; lia). done. }
    rewrite Hc.
    replace (30 <? k_ p) with false by (symmetry; apply Z.ltb_ge; lia).
    exact Htest.
  - intros Hb Hn.
    exists (expected_policy bits_per_key).
    destruct (CreateFilter_Some (expected_policy bits_per_key) keys dst Hn Hb) as [f Hf].
    exists f. split; [by apply PolicyFacts.BloomFilterPolicy_nonneg | exact Hf].
Qed.

(** C10: [CreateFilter] only appends to [dst].  Whatever the [int
    bits_per_key], when the policy is constructed and the filter produced,
    the result is [dst] as it was, then the bytes of the bit array, then one
    last byte equal to the probe count [k_], which lies in 1..30.  For a
    non-negative [bits_per_key] and [n] keys the policy is constructed, the
    filter is produced, the bit array has
    [bytes = ceil(max(64, n * bits_per_key) / 8)] bytes, so that [bytes + 1]
    bytes are appended, and [k_] is [floor(bits_per_key * 0.69)] clamped to
    1..30. *)
Theorem CreateFilter_appends (bits_per_key : Z) (keys : list Slice) (dst : list Z) :
  (forall p f,
      BloomFilterPolicy bits_per_key = Some p ->
      CreateFilter p keys dst = Some f ->
      exists array,
        f = dst ++ array ++ [k_ p]
        /\ take (length dst) f = dst
        /\ length f = (length dst + (length array + 1))%nat
        /\ 1 <= k_ p <= 30)
  /\ (0 <= bits_per_key < 2 ^ 31 ->
      Z.of_nat (length keys) < 2 ^ 31 ->
      exists p array bytes k,
        BloomFilterPolicy bits_per_key = Some p
        /\ CreateFilter p keys dst = Some (dst ++ array ++ [k])
        /\ Z.of_nat (length array) = bytes
        /\ 8 * (bytes - 1) < Z.max 64 (Z.of_nat (length keys) * bits_per_key) <= 8 * bytes
        /\ k = k_ p
        /\ k = Z.max 1 (Z.min 30 (bits_per_key * 69 / 100))).
Proof.
  assert (Hshape : forall p f,
             BloomFilterPolicy bits_per_key = Some p ->
             CreateFilter p keys dst = Some f ->
             exists array, f = dst ++ array ++ [k_ p]
               /\ length array = Z.to_nat (filter_bytes p (Z.of_nat (length keys)))
               /\ 1 <= k_ p <= 30).
  { intros p f Hp Hf.
    pose proof (PolicyFacts.BloomFilterPolicy_k _ _ Hp) as Hk.
    destruct (CreateFilter_shape _ _ _ _ Hf) as (array & -> & Hlen).
    exists array. split; [|done].
    do 3 f_equal. unfold wrap8. apply Z.mod_small. lia. }
  split.
  - intros p f Hp Hf. destruct (Hshape p f Hp Hf) as (array & -> & _ & Hk).
    exists array. split; [done|]. split; [by rewrite take_app_length|].
    split; [|done]. rewrite !length_app. simpl. lia.
  - intros Hb Hn.
    set (p := expected_policy bits_per_key).
    assert (Hp : BloomFilterPolicy bits_per_key = Some p)
      by (by apply PolicyFacts.BloomFilterPolicy_nonneg).
    destruct (CreateFilter_Some p keys dst Hn Hb) as [f Hf].
    destruct (Hshape p f Hp Hf) as (array & -> & Hlen & _).
    pose proof (filter_bytes_ceil p (Z.of_nat (length keys)) ltac:(lia) Hb) as Hc.
    pose proof (filter_bytes_nonneg p (Z.of_nat (length keys))) as Hnb.
    exists p, array, (filter_bytes p (Z.of_nat (length keys))), (k_ p).
    split; [exact Hp|]. split; [exact Hf|].
    split; [lia|]. split; [exact Hc|]. split; reflexivity.
Qed.

End WithHash.

(** C1 at work: ten bits per key, two keys, the second one looked up. *)
Lemma bloom_no_false_negatives_witness :
  Examples.key_bc ∈ Examples.two_keys
  /\ exists p f,
       Bloom.BloomFilterPolicy 10 = Some p
       /\ Bloom.CreateFilter Examples.toy_Hash p Examples.two_keys [] = Some f
       /\ Bloom.KeyMayMatch Examples.toy_Hash p Examples.key_bc f = true.
Proof.
  assert (Hin : Examples.key_bc ∈ Examples.two_keys) by (right; left).
  split; [exact Hin|].
  destruct (bloom_no_false_negatives Examples.toy_Hash 10 Examples.two_keys
              Examples.key_bc [] Hin) as [Hmatch Hmade].
  destruct Hmade as (p & f & Hp & Hf); [lia | simpl; lia |].
  exists p, f. split; [exact Hp|]. split; [exact Hf|].
  exact (Hmatch p f Hp Hf).
Defined.

(** C10 at work: ten bits per key and two keys appended to a buffer that
    already holds three bytes. *)
Lemma CreateFilter_appends_witness :
  0 <= 10 < 2 ^ 31
  /\ Z.of_nat (length Examples.two_keys) < 2 ^ 31
  /\ exists p array bytes k,
       Bloom.BloomFilterPolicy 10 = Some p
       /\ Bloom.CreateFilter Examples.toy_Hash p Examples.two_keys [1; 2; 3]
          = Some ([1; 2; 3] ++ array ++ [k])
       /\ Z.of_nat (length array) = bytes
       /\ 8 * (bytes - 1) < Z.max 64 (Z.of_nat (length Examples.two_keys) * 10) <= 8 * bytes
       /\ k = Bloom.k_ p
       /\ k = Z.max 1 (Z.min 30 (10 * 69 / 100)).
Proof.
  assert (H10 : 0 <= 10 < 2 ^ 31) by lia.
  assert (Hn : Z.of_nat (length Examples.two_keys) < 2 ^ 31) by (simpl; lia).
  split; [exact H10|]. split; [exact Hn|].
  exact (proj2 (CreateFilter_appends Examples.toy_Hash 10 Examples.two_keys [1; 2; 3])
           H10 Hn).
Defined.

End BloomFacts.

(** ** BuildTable *)

Module BuilderFacts.
Section WithCollaborators.
Import Builder.

Variable TableFileName : string -> Z -> string.
Variable new_TableBuilder : WritableFile -> TableBuilder.

Local Abbreviation BuildTable := (Builder.BuildTable TableFileName new_TableBuilder).
Local Abbreviation status_before_input_check :=
  (Builder.status_before_input_check TableFileName new_TableBuilder).

Lemma add_loop_trace rest : forall meta,
  (add_loop rest meta).2 = (λ kv, EvAdd kv.1 kv.2) <$> rest.
Proof.
  induction rest as [|[k v] rest IH]; intros meta; simpl; [done|].
  specialize (IH (set_largest k meta)).
  destruct (add_loop rest (set_largest k meta)) as [m tr]. simpl in *. by rewrite IH.
Qed.

Lemma add_loop_meta rest : forall meta,
  (add_loop rest meta).1
  = match last rest with Some kv => set_largest kv.1 meta | None => meta end.
Proof.
  induction rest as [|[k v] rest IH]; intros meta; [done|].
  cbn [add_loop].
  pose proof (IH (set_largest k meta)) as IH'.
  destruct (add_loop rest (set_largest k meta)) as [m tr]. cbn [fst] in *. subst m.
  rewrite last_cons. destruct (last rest); reflexivity.
Qed.

Lemma add_loop_eq rest meta :
  add_loop rest meta
  = (match last rest with Some kv => set_largest kv.1 meta | None => meta end,
     (λ kv, EvAdd kv.1 kv.2) <$> rest).
Proof.
  pose proof (add_loop_meta rest meta) as Hm.
  pose proof (add_loop_trace rest meta) as Ht.
  destruct (add_loop rest meta) as [m tr]. cbn [fst snd] in *. congruence.
Qed.

(** Case analysis over the answers of the collaborators, in call order. *)
Ltac build_norm :=
  cbn [ok negb andb fst snd number file_size smallest largest allowed_seeks
       set_file_size set_smallest set_largest].

Ltac build_cases :=
  unfold Builder.BuildTable, Builder.status_before_input_check, Builder.write_table,
    Builder.finish_build;
  repeat match goal with
  | _ => progress build_norm
  | |- context [NewWritableFile ?e ?f] =>
      let s := fresh "news" in let file := fresh "file" in
      destruct (NewWritableFile e f) as [s file]; destruct s
  | |- context [add_loop ?r ?m] => rewrite (add_loop_eq r m)
  | H : last ?l = Some _ |- context [last ?l] => rewrite H
  | |- context [ok (Finish ?b ?l)] => destruct (Finish b l) eqn:?
  | |- context [0 <? wrap64 ?x] => destruct (0 <? wrap64 x) eqn:?
  | |- context [ok (Sync ?f)] => destruct (Sync f) eqn:?
  | |- context [ok (Close ?f)] => destruct (Close f) eqn:?
  | |- context [ok (status ?i)] => destruct (status i) eqn:?
  | |- context [NewIterator ?c ?n ?z] =>
      lazymatch goal with
      | |- context [ok (NewIterator c n z)] => destruct (NewIterator c n z) eqn:?
      end
  end.

(** In a list sorted by a preorder the first element is below, and the
    last one above, every element. *)
Lemma sorted_first_last {A} (R : relation A) `{!Reflexive R, !Transitive R}
    (l : list A) a z :
  Sorted R l -> head l = Some a -> last l = Some z ->
  forall x, x ∈ l -> R a x /\ R x z.
Proof.
  intros Hs Hhead Hlast x Hx. apply Sorted_StronglySorted in Hs; [|done].
  split.
  - destruct l as [|a' l]; [done|]. injection Hhead as ->.
    apply StronglySorted_inv in Hs as [_ Hall].
    apply elem_of_cons in Hx as [->|Hx]; [done|].
    rewrite Forall_forall in Hall. by apply Hall.
  - clear Hhead. induction Hs as [|y l Hs IH Hall]; [done|].
    destruct l as [|y' l].
    + injection Hlast as <-. apply list_elem_of_singleton in Hx as ->. done.
    + rewrite last_cons_cons in Hlast.
      apply elem_of_cons in Hx as [->|Hx]; [|by apply IH].
      rewrite Forall_forall in Hall. apply Hall. by apply last_Some_elem_of.
Qed.

(** C2: a successful build of a non-empty input stores the first key in
    [smallest], the last key in [largest] and the builder's file size, which
    is positive, in [file_size]; when the input is in ascending order these
    two keys bound every key of the table. *)
Theorem BuildTable_success_meta dbname env table_cache iter meta s meta' tr k1 v1 kn vn :
  head (entries iter) = Some (k1, v1) ->
  last (entries iter) = Some (kn, vn) ->
  BuildTable dbname env table_cache iter meta = Returns s meta' tr ->
  ok s = true ->
  smallest meta' = k1
  /\ largest meta' = kn
  /\ file_size meta'
     = wrap64 (FileSize
         (new_TableBuilder (NewWritableFile env (TableFileName dbname (number meta))).2)
         (entries iter))
  /\ 0 < file_size meta'
  /\ number meta' = number meta
  /\ forall (le : relation Slice), Reflexive le -> Transitive le ->
       Sorted le (entries iter).*1 ->
       forall k v, (k, v) ∈ entries iter -> le (smallest meta') k /\ le k (largest meta').
Proof.
  intros Hhead Hlast Hrun Hok.
  assert (Hmeta : smallest meta' = k1 /\ largest meta' = kn
            /\ file_size meta'
               = wrap64 (FileSize
                   (new_TableBuilder
                      (NewWritableFile env (TableFileName dbname (number meta))).2)
                   (entries iter))
            /\ 0 < file_size meta' /\ number meta' = number meta).
  { revert Hrun Hok. unfold Builder.BuildTable.
    destruct (entries iter) as [|[k0 v0] rest]; [discriminate|].
    simpl in Hhead. inversion Hhead; subst k0 v0; clear Hhead.
    build_cases; intros [= <- <- <-] Hok; try discriminate Hok; build_norm;
      repeat split; try done; by apply Z.ltb_lt. }
  destruct Hmeta as (Hsm & Hlg & Hsz & Hpos & Hnum).
  repeat (split; [done|]).
  intros le Hrefl Htrans Hsorted k v Hin. rewrite Hsm, Hlg.
  apply (sorted_first_last le (entries iter).*1 k1 kn Hsorted).
  - destruct (entries iter) as [|kv l]; [done|]. by injection Hhead as ->.
  - by rewrite fmap_last, Hlast.
  - by apply (list_elem_of_fmap_2 fst _ (k, v)).
Qed.

Lemma files_after_delete fs tr fname :
  fname ∉ files_after fs (tr ++ [EvDeleteFile fname]).
Proof.
  unfold files_after. rewrite foldl_app. simpl.
  intros Hin. apply list_elem_of_filter in Hin as [Hne _]. by apply Hne.
Qed.

(** C9: for an input that yields nothing and reports no error, [BuildTable]
    returns OK with a zero [file_size]; its only call is the delete of the
    table file name, so that no builder was made, nothing was written, and
    no file of that name is left. *)
Theorem BuildTable_empty_input dbname env table_cache iter meta :
  entries iter = [] ->
  status iter = OK ->
  exists meta',
    BuildTable dbname env table_cache iter meta
    = Returns OK meta' [EvDeleteFile (TableFileName dbname (number meta))]
    /\ file_size meta' = 0
    /\ number meta' = number meta
    /\ forall fs, TableFileName dbname (number meta)
                  ∉ files_after fs [EvDeleteFile (TableFileName dbname (number meta))].
Proof.
  intros Hentries Hstatus. exists (set_file_size 0 meta).
  unfold Builder.BuildTable, Builder.finish_build. rewrite Hentries, Hstatus.
  repeat split. intros fs. apply (files_after_delete fs []).
Qed.

(** C3, as the code has it: a non-OK return is either the failure to create
    the output file, returned at once with no other call made, or it comes
    after the delete of the output file as last call; the status returned
    is then the input iterator's when that is not ok, and otherwise the one
    of the call that failed: [Finish], [Sync], [Close] or the validation. *)
Theorem BuildTable_failure_deletes dbname env table_cache iter meta s meta' tr :
  BuildTable dbname env table_cache iter meta = Returns s meta' tr ->
  ok s = false ->
  (entries iter <> []
   /\ (NewWritableFile env (TableFileName dbname (number meta))).1 = s
   /\ tr = [EvNewWritableFile (TableFileName dbname (number meta)) s])
  \/ (last tr = Some (EvDeleteFile (TableFileName dbname (number meta)))
      /\ (forall fs, TableFileName dbname (number meta) ∉ files_after fs tr)
      /\ (if ok (status iter)
          then EvFinish s ∈ tr \/ EvSync s ∈ tr \/ EvClose s ∈ tr
               \/ exists n z, EvNewIterator n z s ∈ tr
          else s = status iter)).
Proof.
  unfold Builder.BuildTable.
  destruct (entries iter) as [|[k0 v0] rest] eqn:Hentries.
  - build_cases; intros [= <- <- <-] Hok; try discriminate Hok;
      right; (split; [done|]); (split; [|done]); intros fs;
      apply (files_after_delete fs []).
  - assert (is_Some (last ((k0, v0) :: rest))) as [[kn vn] Hlast]
      by (by apply last_is_Some).
    build_cases; intros [= <- <- <-] Hok; try discriminate Hok;
      try (left; by repeat split);
      right; rewrite ?app_comm_cons; (split; [apply last_snoc|]);
      (split; [intros fs; apply files_after_delete|]);
      first [ done | set_solver | do 3 right; eexists _, _; set_solver ].
Qed.

(** C4, as the code has it: the table is validated through the table cache
    exactly when it was written, synced and closed without error, and after
    these calls; the status of the validating iterator is the status held
    when the input iterator is checked, and it is the status returned unless
    the input iterator reports an error of its own, which is returned
    instead.  Either way a failed validation fails the build and the file
    is deleted. *)
Theorem BuildTable_validates dbname env table_cache iter meta s meta' tr :
  BuildTable dbname env table_cache iter meta = Returns s meta' tr ->
  (EvClose OK ∈ tr -> exists vs, EvNewIterator (number meta) (file_size meta') vs ∈ tr)
  /\ (forall n z vs, EvNewIterator n z vs ∈ tr ->
        n = number meta /\ z = file_size meta' /\ vs = NewIterator table_cache n z
        /\ (exists pre post,
              tr = pre ++ [EvSync OK; EvClose OK; EvDeleteFileObject; EvNewIterator n z vs]
                       ++ post
              /\ EvFinish OK ∈ pre /\ exists k v, EvAdd k v ∈ pre)
        /\ status_before_input_check dbname env table_cache iter meta = Some vs
        /\ s = (if ok (status iter) then vs else status iter)
        /\ (ok vs = false ->
            ok s = false
            /\ last tr = Some (EvDeleteFile (TableFileName dbname (number meta))))).
Proof.
  unfold Builder.BuildTable, Builder.status_before_input_check.
  destruct (entries iter) as [|[k0 v0] rest] eqn:Hentries.
  - build_cases; intros [= <- <- <-]; (split; [set_solver|]); intros n z vs Hin;
      exfalso; set_solver.
  - assert (is_Some (last ((k0, v0) :: rest))) as [[kn vn] Hlast]
      by (by apply last_is_Some).
    build_cases; intros [= <- <- <-];
      (split;
         [ first [ intros Hc; exfalso; set_solver
                 | intros _;
                   match goal with
                   | |- context [[EvNewIterator _ _ ?v]] => exists v
                   end; set_solver ]
         |]);
      intros n z vs Hin;
      try (exfalso; set_solver).
    all: assert (n = number meta
                 /\ z = wrap64 (FileSize (new_TableBuilder file) ((k0, v0) :: rest))
                 /\ vs = NewIterator table_cache n z) as (-> & -> & ->)
           by (set_unfold; naive_solver).
    all: repeat match goal with H : _ = _ |- _ => rewrite H end.
    all: (split; [done|]); (split; [done|]); (split; [done|]).
    all: split;
      [ match goal with
        | |- context [EvFileSize ?z] =>
            exists ([EvNewWritableFile (TableFileName dbname (number meta)) OK;
                     EvNewTableBuilder]
                    ++ ((λ kv, EvAdd kv.1 kv.2) <$> ((k0, v0) :: rest))
                    ++ [EvFinish OK; EvFileSize z; EvDeleteBuilder])
        end; eexists;
        split; [rewrite <- ?app_assoc; simpl; rewrite <- ?app_assoc; simpl; reflexivity|];
        split; [set_solver | exists k0, v0; set_solver]
      | ].
    all: (split; [done|]); (split; [done|]).
    all: build_norm; intros Hvs; try discriminate Hvs.
    all: split; [done | by rewrite ?app_comm_cons, last_snoc].
Qed.

(** The calls up to the release of the builder, as a prefix of the trace. *)
Ltac split_trace :=
  match goal with
  | |- context [EvNewWritableFile ?f OK :: EvNewTableBuilder :: EvAdd ?k ?v :: ?t] =>
      match t with
      | context [list_fmap _ _ ?g ?rest] =>
          match t with
          | context [EvFileSize ?z] =>
              exists ([EvNewWritableFile f OK; EvNewTableBuilder]
                      ++ (g <$> ((k, v) :: rest))
                      ++ [EvFinish OK; EvFileSize z; EvDeleteBuilder])
          end
      end
  end.

(** C5, as the code has it: the file is closed only right after a sync that
    answered OK, and a successful build has both; a failure of [Sync] or of
    [Close] makes the build fail and the file be deleted, and the status
    returned is that failure unless the input iterator reports an error of
    its own, which is returned instead. *)
Theorem BuildTable_sync_close dbname env table_cache iter meta s meta' tr :
  BuildTable dbname env table_cache iter meta = Returns s meta' tr ->
  (forall cs, EvClose cs ∈ tr ->
     exists pre post, tr = pre ++ [EvSync OK; EvClose cs] ++ post)
  /\ (entries iter <> [] -> ok s = true ->
      exists pre post, tr = pre ++ [EvSync OK; EvClose OK] ++ post)
  /\ (forall fs, EvSync fs ∈ tr \/ EvClose fs ∈ tr -> ok fs = false ->
        s = (if ok (status iter) then fs else status iter)
        /\ ok s = false
        /\ last tr = Some (EvDeleteFile (TableFileName dbname (number meta)))).
Proof.
  unfold Builder.BuildTable.
  destruct (entries iter) as [|[k0 v0] rest] eqn:Hentries.
  - build_cases; intros [= <- <- <-]; repeat split; try done; set_solver.
  - assert (is_Some (last ((k0, v0) :: rest))) as [[kn vn] Hlast]
      by (by apply last_is_Some).
    build_cases; intros [= <- <- <-].
    all: split; [intros cs Hin; try (exfalso; set_solver)|].
    all: try (assert (cs = OK) as -> by (set_unfold; naive_solver)).
    all: try match goal with
             | H : Close _ = ?c |- context [EvClose ?cs] =>
                 assert (cs = c) as -> by (set_unfold; naive_solver)
             end.
    all: try (split_trace; eexists;
              rewrite <- ?app_assoc; simpl; rewrite <- ?app_assoc; simpl; reflexivity).
    all: split; [intros _ Hok; try discriminate Hok|].
    all: try (split_trace; eexists;
              rewrite <- ?app_assoc; simpl; rewrite <- ?app_assoc; simpl; reflexivity).
    all: intros fs Hin Hfs; try (exfalso; set_solver).
    all: try (assert (fs = OK) as -> by (set_unfold; naive_solver); discriminate Hfs).
    all: repeat split; try done; try by rewrite ?app_comm_cons, last_snoc.
    all: set_unfold; naive_solver.
Qed.

End WithCollaborators.

Import Builder Examples.

Local Abbreviation run := (Builder.BuildTable TableFileName new_TableBuilder "db").

(** C2 at work: two entries, every collaborator answering OK. *)
Lemma BuildTable_success_meta_witness :
  exists meta' tr,
    head (entries good_iter) = Some (key_a, key_bc)
    /\ last (entries good_iter) = Some (key_bc, key_a)
    /\ run good_env good_cache good_iter meta7 = Returns OK meta' tr
    /\ ok OK = true
    /\ smallest meta' = key_a
    /\ largest meta' = key_bc
    /\ file_size meta' = 50
    /\ 0 < file_size meta'.
Proof.
  eexists _, _.
  split; [reflexivity|]. split; [reflexivity|]. split; [reflexivity|].
  split; [reflexivity|].
  destruct (BuildTable_success_meta TableFileName new_TableBuilder "db" good_env good_cache
              good_iter meta7 OK _ _ key_a key_bc key_bc key_a
              eq_refl eq_refl eq_refl eq_refl) as (Hs & Hl & Hz & Hpos & _).
  split; [exact Hs|]. split; [exact Hl|]. split; [exact Hz | exact Hpos].
Defined.

(** C9 at work: the empty input. *)
Lemma BuildTable_empty_input_witness :
  entries empty_iter = []
  /\ status empty_iter = OK
  /\ exists meta',
       run good_env good_cache empty_iter meta7
       = Returns OK meta' [EvDeleteFile (TableFileName "db" (number meta7))]
       /\ file_size meta' = 0
       /\ number meta' = number meta7
       /\ forall fs, TableFileName "db" (number meta7)
                     ∉ files_after fs [EvDeleteFile (TableFileName "db" (number meta7))].
Proof.
  split; [reflexivity|]. split; [reflexivity|].
  exact (BuildTable_empty_input TableFileName new_TableBuilder "db" good_env good_cache
           empty_iter meta7 eq_refl eq_refl).
Defined.

(** C3 refuted as stated: when the output file cannot be created,
    [BuildTable] returns that failure and has issued no delete. *)
Lemma BuildTable_create_failure_no_delete :
  exists s meta' tr,
    run full_env good_cache good_iter meta7 = Returns s meta' tr
    /\ ok s = false
    /\ forall fname, EvDeleteFile fname ∉ tr.
Proof.
  eexists _, _, _. split; [reflexivity|]. split; [reflexivity|].
  intros fname Hin. apply list_elem_of_In in Hin. simpl in Hin.
  destruct Hin as [Heq|[]]. discriminate Heq.
Qed.

(** C3 at work: a failed sync. *)
Lemma BuildTable_failure_deletes_witness :
  exists meta' tr,
    run unsynced_env good_cache good_iter meta7
    = Returns (Error kIOError "sync failed") meta' tr
    /\ ok (Error kIOError "sync failed") = false
    /\ last tr = Some (EvDeleteFile (TableFileName "db" 7))
    /\ EvSync (Error kIOError "sync failed") ∈ tr.
Proof.
  eexists _, _. split; [reflexivity|]. split; [reflexivity|].
  destruct (BuildTable_failure_deletes TableFileName new_TableBuilder "db" unsynced_env
              good_cache good_iter meta7 _ _ _ eq_refl eq_refl)
    as [(_ & _ & Htr)|(Hlast & _ & Hs)].
  - discriminate Htr.
  - split; [exact Hlast|].
    change (ok (status good_iter)) with true in Hs. cbv iota in Hs.
    destruct Hs as [Hs|[Hs|[Hs|(n & z & Hs)]]]; try exact Hs;
      apply list_elem_of_In in Hs; simpl in Hs;
      repeat (destruct Hs as [Hs|Hs]; [discriminate Hs|]); destruct Hs.
Defined.

(** C4 refuted as stated: the validating iterator answers OK, yet the
    status of [BuildTable] is the error of the input iterator. *)
Lemma BuildTable_validation_status_overridden :
  exists s meta' tr vs,
    run good_env good_cache corrupt_iter meta7 = Returns s meta' tr
    /\ EvNewIterator (number meta7) (file_size meta') vs ∈ tr
    /\ vs = OK
    /\ s <> vs.
Proof.
  eexists _, _, _, OK. split; [reflexivity|].
  split; [apply list_elem_of_In; simpl; tauto|]. split; [reflexivity|]. discriminate.
Qed.

(** C4 at work: the same run, read through the theorem. *)
Lemma BuildTable_validates_witness :
  exists meta' tr,
    run good_env good_cache corrupt_iter meta7
    = Returns (Error kCorruption "bad block") meta' tr
    /\ EvNewIterator 7 50 OK ∈ tr
    /\ Builder.status_before_input_check TableFileName new_TableBuilder "db" good_env
         good_cache corrupt_iter meta7 = Some OK
    /\ Error kCorruption "bad block"
       = (if ok (status corrupt_iter) then OK else status corrupt_iter).
Proof.
  eexists _, _. split; [reflexivity|].
  assert (Hin : EvNewIterator 7 50 OK
                ∈ [EvNewWritableFile (TableFileName "db" 7) OK; EvNewTableBuilder;
                   EvAdd key_a key_bc; EvAdd key_bc key_a; EvFinish OK; EvFileSize 50;
                   EvDeleteBuilder; EvSync OK; EvClose OK; EvDeleteFileObject;
                   EvNewIterator 7 50 OK; EvDeleteFile (TableFileName "db" 7)])
    by (apply list_elem_of_In; simpl; tauto).
  split; [exact Hin|].
  destruct (BuildTable_validates TableFileName new_TableBuilder "db" good_env good_cache
              corrupt_iter meta7 _ _ _ eq_refl) as [_ Hval].
  destruct (Hval 7 50 OK Hin) as (_ & _ & _ & _ & Hbefore & Hs & _).
  split; [exact Hbefore | exact Hs].
Defined.

(** C5 refuted as stated: the sync fails, yet the status of [BuildTable] is
    the error of the input iterator, not the failure of the sync. *)
Lemma BuildTable_sync_failure_overridden :
  exists s meta' tr fs,
    run unsynced_env good_cache corrupt_iter meta7 = Returns s meta' tr
    /\ EvSync fs ∈ tr
    /\ ok fs = false
    /\ s <> fs.
Proof.
  eexists _, _, _, (Error kIOError "sync failed"). split; [reflexivity|].
  split; [apply list_elem_of_In; simpl; tauto|]. split; [reflexivity|]. discriminate.
Qed.

(** C5 at work: a failed sync with a sound input. *)
Lemma BuildTable_sync_close_witness :
  exists meta' tr,
    run unsynced_env good_cache good_iter meta7
    = Returns (Error kIOError "sync failed") meta' tr
    /\ (forall cs, EvClose cs ∉ tr)
    /\ Error kIOError "sync failed"
       = (if ok (status good_iter) then Error kIOError "sync failed" else status good_iter)
    /\ last tr = Some (EvDeleteFile (TableFileName "db" (number meta7))).
Proof.
  eexists _, _. split; [reflexivity|].
  split.
  { intros cs Hin. apply list_elem_of_In in Hin. simpl in Hin.
    repeat (destruct Hin as [Hin|Hin]; [discriminate Hin|]). destruct Hin. }
  destruct (BuildTable_sync_close TableFileName new_TableBuilder "db" unsynced_env
              good_cache good_iter meta7 _ _ _ eq_refl) as (_ & _ & Hfail).
  destruct (Hfail (Error kIOError "sync failed")) as (Hs & _ & Hlast).
  - left. apply list_elem_of_In. simpl. tauto.
  - reflexivity.
  - split; [exact Hs | exact Hlast].
Defined.

End BuilderFacts.

(** ** The coordinator *)

Module DBImplFacts.
Import DBImpl.

Lemma sleeps_app a b : sleeps (a ++ b) = (sleeps a + sleeps b)%nat.
Proof. unfold sleeps. by rewrite List.filter_app, length_app. Qed.

Lemma MaybeScheduleCompaction_sleeps db : sleeps (MaybeScheduleCompaction db).2 = O.
Proof.
  unfold MaybeScheduleCompaction.
  destruct (background_compaction_scheduled_ db); [done|].
  by destruct (work_exists db).
Qed.

(** One pass sleeps only while no delay was taken yet, and then records it. *)
Lemma MakeRoomForWrite_pass_sleeps force delayed db force' delayed' released db' acts :
  MakeRoomForWrite_pass force delayed db = Again force' delayed' released db' acts ->
  (sleeps acts + (if delayed' then 0 else 1) <= (if delayed then 0 else 1))%nat.
Proof.
  unfold MakeRoomForWrite_pass.
  destruct (negb (ok (bg_error_ db))); [discriminate|].
  destruct (negb force && _); [discriminate|].
  destruct ((kL0_SlowdownWritesTrigger <=? _) && negb delayed) eqn:Hslow.
  { intros [= <- <- <- <- <-]. apply andb_true_iff in Hslow as [_ Hd].
    destruct delayed; [discriminate|]. cbn. lia. }
  destruct (bool_decide (imm_ db ≠ None)).
  { intros [= <- <- <- <- <-]. cbn. destruct delayed; lia. }
  destruct (kL0_StopWritesTrigger <=? _).
  { intros [= <- <- <- <- <-]. cbn. destruct delayed; lia. }
  pose proof (MaybeScheduleCompaction_sleeps (switch_log db)) as Hs.
  destruct (MaybeScheduleCompaction (switch_log db)) as [db1 sched].
  intros [= <- <- <- <- <-]. cbn in *. unfold sleeps in *. cbn. rewrite Hs.
  destruct delayed; lia.
Qed.

Lemma MakeRoomForWrite_loop_sleeps fuel : forall bg i force delayed db,
  (sleeps (MakeRoomForWrite_loop fuel bg i force delayed db).2
   <= (if delayed then 0 else 1))%nat.
Proof.
  induction fuel as [|fuel IH]; intros bg i force delayed db; simpl.
  - destruct delayed; cbn; lia.
  - destruct (MakeRoomForWrite_pass force delayed db)
      as [s|force' delayed' released db' acts] eqn:Hpass.
    + destruct delayed; cbn; lia.
    + pose proof (MakeRoomForWrite_pass_sleeps _ _ _ _ _ _ _ _ Hpass) as Hp.
      specialize (IH bg (if released then S i else i) force' delayed'
                    (if released then bg i db' else db')).
      destruct (MakeRoomForWrite_loop fuel bg _ force' delayed' _) as [[r dbf] rest].
      cbn [snd] in *. rewrite sleeps_app. lia.
Qed.

(** C8: one invocation of [MakeRoomForWrite] takes the one-millisecond
    sleep at most once, however many passes its loop makes and whatever the
    background worker does meanwhile; every sleep it takes lasts 1000
    microseconds. *)
Theorem MakeRoomForWrite_sleeps_at_most_once (fuel : nat) (bg : nat -> t -> t)
    (force : bool) (db : t) :
  (sleeps (MakeRoomForWrite fuel bg force db).2 <= 1)%nat
  /\ forall us, SleepForMicroseconds us ∈ (MakeRoomForWrite fuel bg force db).2 -> us = 1000.
Proof.
  split.
  - apply (MakeRoomForWrite_loop_sleeps fuel bg 0%nat force false db).
  - unfold MakeRoomForWrite. generalize 0%nat as i. generalize false as delayed.
    revert force db.
    induction fuel as [|fuel IH]; intros force db delayed i us; simpl; [set_solver|].
    destruct (MakeRoomForWrite_pass force delayed db)
      as [s|force' delayed' released db' acts] eqn:Hpass; [set_solver|].
    specialize (IH force' (if released then bg i db' else db') delayed'
                  (if released then S i else i) us).
    destruct (MakeRoomForWrite_loop fuel bg _ force' delayed' _) as [[r dbf] rest].
    cbn [snd] in *. intros Hin. apply elem_of_app in Hin as [Hin|Hin]; [|by apply IH].
    revert Hpass. unfold MakeRoomForWrite_pass, MaybeScheduleCompaction.
    repeat match goal with
           | |- context [if ?b then _ else _] => destruct b
           end; intros [= <- <- <- <- <-]; set_solver.
Qed.

(** *** MaybeScheduleCompaction *)

Lemma MaybeScheduleCompaction_cases db :
  (MaybeScheduleCompaction db = (db, [])
   /\ (background_compaction_scheduled_ db = true \/ work_exists db = false))
  \/ (MaybeScheduleCompaction db = (set_scheduled true db, [Schedule_BGWork])
      /\ background_compaction_scheduled_ db = false /\ work_exists db = true).
Proof.
  unfold MaybeScheduleCompaction.
  destruct (background_compaction_scheduled_ db); [by left; auto|].
  destruct (work_exists db); [by right | by left; auto].
Qed.

Lemma step_preserves w w' : flag_counts_tasks w -> step w w' -> flag_counts_tasks w'.
Proof.
  unfold flag_counts_tasks. intros Hw Hstep. destruct Hstep as [w|w Hpos|w db' Hflag]; cbn.
  - destruct (MaybeScheduleCompaction_cases (db w)) as [[-> Hc]|(-> & Hf & Hwork)]; cbn.
    + rewrite Hw. destruct (background_compaction_scheduled_ (db w)); lia.
    + rewrite Hw, Hf. reflexivity.
  - rewrite Hw in *. destruct (background_compaction_scheduled_ (db w)); cbn; lia.
  - by rewrite Hflag.
Qed.

Lemma reachable_flag_counts_tasks w : reachable w -> flag_counts_tasks w.
Proof.
  induction 1 as [db0 H0|w w' _ IH Hstep].
  - unfold flag_counts_tasks. cbn. by rewrite H0.
  - eapply step_preserves; eauto.
Qed.

(** C7: [MaybeScheduleCompaction] is idempotent; it schedules only when
    work exists and the flag is off, and then one task; so in every
    reachable state the [Env] holds at most one background task, and holds
    one exactly when the flag is on, in which case a call schedules
    nothing. *)
Theorem MaybeScheduleCompaction_single_task :
  (forall d, MaybeScheduleCompaction (MaybeScheduleCompaction d).1
             = ((MaybeScheduleCompaction d).1, []))
  /\ (forall d, Schedule_BGWork ∈ (MaybeScheduleCompaction d).2 ->
        background_compaction_scheduled_ d = false
        /\ (imm_ d <> None \/ manual_compaction_ d <> None
            \/ NeedsCompaction (versions_ d) = true)
        /\ (MaybeScheduleCompaction d).2 = [Schedule_BGWork]
        /\ background_compaction_scheduled_ (MaybeScheduleCompaction d).1 = true)
  /\ (forall w, reachable w ->
        (tasks w <= 1)%nat
        /\ (tasks w = 1%nat <-> background_compaction_scheduled_ (db w) = true)
        /\ (Schedule_BGWork ∈ (MaybeScheduleCompaction (db w)).2 -> tasks w = 0%nat)).
Proof.
  split; [|split].
  - intros d.
    destruct (MaybeScheduleCompaction_cases d) as [[E Hc]|(E & Hf & Hwork)]; rewrite E; cbn.
    + exact E.
    + reflexivity.
  - intros d Hin.
    destruct (MaybeScheduleCompaction_cases d) as [[E Hc]|(E & Hf & Hwork)];
      rewrite E in *; cbn in *; [set_solver|].
    repeat split; try done.
    unfold work_exists in Hwork.
    apply orb_true_iff in Hwork as [Hwork|Hwork]; [|auto].
    apply orb_true_iff in Hwork as [Hwork|Hwork];
      apply bool_decide_eq_true in Hwork; auto.
  - intros w Hw. apply reachable_flag_counts_tasks in Hw. unfold flag_counts_tasks in Hw.
    destruct (MaybeScheduleCompaction_cases (db w)) as [[E Hc]|(E & Hf & Hwork)];
      rewrite E; cbn;
      destruct (background_compaction_scheduled_ (db w));
      repeat split; try lia; try done; try set_solver.
Qed.

(** *** CompactMemTable *)

Section Flush.

Variable WriteLevel0Table : MemTable -> VersionSet -> Status * VersionEdit.
Variable LogAndApply_status : VersionEdit -> Status.

Local Abbreviation CompactMemTable :=
  (DBImpl.CompactMemTable WriteLevel0Table LogAndApply_status).

(** With an error recorded, [MakeRoomForWrite] gives it back at once. *)
Lemma MakeRoomForWrite_bg_error fuel bg force d e :
  bg_error_ d = e -> ok e = false ->
  MakeRoomForWrite (S fuel) bg force d = (Some e, d, []).
Proof.
  intros He Hok. unfold MakeRoomForWrite. simpl.
  unfold MakeRoomForWrite_pass. rewrite He, Hok. reflexivity.
Qed.

(** C6: the flush succeeds when [WriteLevel0Table] and the application of
    the edit both answer OK.  Then, and only then, the descriptor gets a new
    edit, which makes the new log file the current one, [imm_] is cleared
    and the obsolete files are deleted.  Otherwise nothing of this happens,
    the failure is recorded in [bg_error_], and a write that finds it there
    fails with it. *)
Theorem CompactMemTable_iff_success (d : t) (imm : MemTable) :
  imm_ d = Some imm ->
  let s1 := (WriteLevel0Table imm (versions_ d)).1 in
  let edit := {| new_files := new_files (WriteLevel0Table imm (versions_ d)).2;
                 edit_log_number := Some (logfile_number_ d) |} in
  let s2 := LogAndApply_status edit in
  let d' := (CompactMemTable d).1 in
  let acts := (CompactMemTable d).2 in
  let failure := if ok s1 then s2 else s1 in
  ((exists e, manifest (versions_ d') = manifest (versions_ d) ++ [e])
   <-> (ok s1 && ok s2) = true)
  /\ ((ok s1 && ok s2) = true ->
      manifest (versions_ d') = manifest (versions_ d) ++ [edit]
      /\ log_number (versions_ d') = logfile_number_ d
      /\ imm_ d' = None
      /\ acts = [LogAndApply edit OK; DeleteObsoleteFiles]
      /\ bg_error_ d' = bg_error_ d)
  /\ ((ok s1 && ok s2) = false ->
      versions_ d' = versions_ d
      /\ imm_ d' = Some imm
      /\ mem_ d' = mem_ d /\ logfile_number_ d' = logfile_number_ d
      /\ (DeleteObsoleteFiles ∉ acts)
      /\ ok failure = false
      /\ bg_error_ d' = failure
      /\ forall fuel bg force d'',
           bg_error_ d'' = bg_error_ d' ->
           MakeRoomForWrite (S fuel) bg force d'' = (Some failure, d'', [])).
Proof.
  intros Himm. cbn zeta. unfold DBImpl.CompactMemTable. rewrite Himm.
  destruct (WriteLevel0Table imm (versions_ d)) as [s1 edit0]. cbn [fst snd].
  destruct s1 as [|c1 m1]; cbn [ok andb].
  - destruct (LogAndApply_status _) as [|c2 m2] eqn:H2; cbn [ok fst snd].
    + split; [|split]; [|intros _|intros [=]].
      * split; [done|]. intros _. eexists. reflexivity.
      * by repeat split.
    + split; [|split]; [|intros [=]|intros _].
      * split; [|intros [=]]. intros [e He]. cbn in He.
        apply (f_equal length) in He. rewrite length_app in He. simpl in He. lia.
      * repeat split; try done; try set_solver.
        intros fuel bg force d'' He. by apply MakeRoomForWrite_bg_error.
  - split; [|split]; [|intros [=]|intros _].
    + split; [|intros [=]]. intros [e He]. cbn in He.
      apply (f_equal length) in He. rewrite length_app in He. simpl in He. lia.
    + repeat split; try done; try set_solver.
      intros fuel bg force d'' He. by apply MakeRoomForWrite_bg_error.
Qed.

End Flush.

Import Examples.

(** C6 at work: a flush that succeeds and one that fails. *)
Lemma CompactMemTable_iff_success_witness :
  imm_ db0 = Some sealed
  /\ imm_ (DBImpl.CompactMemTable flush_ok apply_ok db0).1 = None
  /\ log_number (versions_ (DBImpl.CompactMemTable flush_ok apply_ok db0).1) = 6
  /\ bg_error_ (DBImpl.CompactMemTable flush_fails apply_ok db0).1
     = Error kIOError "disk full"
  /\ MakeRoomForWrite 1 (fun _ d => d) false
       (DBImpl.CompactMemTable flush_fails apply_ok db0).1
     = (Some (Error kIOError "disk full"),
        (DBImpl.CompactMemTable flush_fails apply_ok db0).1, []).
Proof.
  split; [reflexivity|].
  destruct (CompactMemTable_iff_success flush_ok apply_ok db0 sealed eq_refl)
    as (_ & Hgood & _).
  destruct (Hgood eq_refl) as (_ & Hlog & Himm & _).
  destruct (CompactMemTable_iff_success flush_fails apply_ok db0 sealed eq_refl)
    as (_ & _ & Hbad).
  destruct (Hbad eq_refl) as (_ & _ & _ & _ & _ & _ & Herr & Hwrite).
  split; [exact Himm|]. split; [exact Hlog|]. split; [exact Herr|].
  exact (Hwrite O (fun _ d => d) false _ eq_refl).
Defined.

End DBImplFacts.

(** ** The constructor on a negative argument *)

Module PolicyMore.
Import Double Bloom BloomSpec.

Lemma binary_round_aux_negative mx e l :
  binary_round_aux prec emax true mx e l
  = match binary_round_aux prec emax false mx e l with
    | S754_zero _ => S754_zero true
    | S754_finite _ m e' => S754_finite true m e'
    | S754_infinity _ => S754_infinity true
    | S754_nan => S754_nan
    end.
Proof.
  unfold binary_round_aux.
  destruct (shr_fexp prec emax mx e l) as [mrs1 e1].
  destruct (shr_fexp prec emax _ e1 loc_Exact) as [mrs2 e2].
  destruct (shr_m mrs2); [reflexivity| |reflexivity].
  destruct (e2 <=? emax - prec); reflexivity.
Qed.

(** [bits_per_key * 0.69] for an [int] below -1: the product is -1 or
    less after truncation, which no [size_t] holds. *)
Lemma product_negative (p : positive) :
  2 <= Zpos p <= 2 ^ 31 ->
  to_size_t (mul (of_int (Zneg p)) d0_69) = None.
Proof.
  intros Hp.
  destruct (DoubleFacts.binary_round_aux_product (p * 6214967485771284))
    as (m & e & Hr & He & Hhi & Hlo).
  { rewrite Pos2Z.inj_mul. lia. }
  unfold mul, of_int, d0_69, SFmul. cbn [xorb]. rewrite Z.add_0_l.
  rewrite binary_round_aux_negative, Hr.
  unfold to_size_t, truncate.
  replace (0 <=? e) with false by (symmetry; apply Z.leb_gt; lia).
  set (M := Zpos m * 2 ^ (e + 53)) in *.
  assert (Hq : Zpos m / 2 ^ (- e) = M / 2 ^ 53).
  { unfold M. replace (2 ^ 53) with (2 ^ (- e) * 2 ^ (e + 53))
      by (rewrite <- Z.pow_add_r by lia; f_equal; lia).
    rewrite Z.div_mul_cancel_r; [reflexivity| |];
      apply Z.pow_nonzero; lia. }
  rewrite Hq. rewrite Pos2Z.inj_mul in Hhi, Hlo.
  assert (Hv : 1 <= M / 2 ^ 53) by (apply Z.div_le_lower_bound; lia).
  replace (0 <=? - (M / 2 ^ 53)) with false by (symmetry; apply Z.leb_gt; lia).
  reflexivity.
Qed.

(** X16: over the whole range of [int], the constructor is undefined
    exactly from -2 downwards, where the product converted to [size_t] is
    -1 or less.  On -1 the product truncates to zero: the policy is built,
    with one probe and [bits_per_key_] wrapped around to 2^64 - 1. *)
Theorem BloomFilterPolicy_undefined_iff (bits_per_key : Z) :
  - 2 ^ 31 <= bits_per_key < 2 ^ 31 ->
  (BloomFilterPolicy bits_per_key = None <-> bits_per_key <= -2)
  /\ (bits_per_key = -1 ->
      BloomFilterPolicy bits_per_key = Some {| bits_per_key_ := 2 ^ 64 - 1; k_ := 1 |}).
Proof.
  intros Hb. split.
  - split.
    + intros Hnone. destruct (Z_lt_le_dec bits_per_key 0) as [Hneg|Hpos].
      * destruct (Z.eq_dec bits_per_key (-1)) as [->|]; [|lia].
        vm_compute in Hnone. discriminate.
      * rewrite PolicyFacts.BloomFilterPolicy_nonneg in Hnone by lia. discriminate.
    + intros Hle. destruct bits_per_key as [|p|p]; try lia.
      unfold BloomFilterPolicy. rewrite product_negative by lia. reflexivity.
  - intros ->. vm_compute. reflexivity.
Qed.

Lemma BloomFilterPolicy_undefined_iff_witness :
  - 2 ^ 31 <= -5 < 2 ^ 31 /\ BloomFilterPolicy (-5) = None.
Proof.
  assert (H : - 2 ^ 31 <= -5 < 2 ^ 31) by lia.
  split; [exact H|].
  apply (proj2 (proj1 (BloomFilterPolicy_undefined_iff (-5) H))). lia.
Defined.

End PolicyMore.

(** ** More on the bloom filter *)

Module BloomMore.
Import Bloom BloomSpec BloomProbes.

(** *** The rotation *)

Lemma uint32_high_bits h i : 0 <= h < 2 ^ 32 -> 32 <= i -> Z.testbit h i = false.
Proof.
  intros Hh Hi. destruct (Z.eq_dec h 0) as [->|Hne]; [apply Z.bits_0|].
  apply Z.bits_above_log2; [lia|].
  assert (Z.log2 h < 32) by (apply Z.log2_lt_pow2; lia). lia.
Qed.

Lemma uint32_of_bits x :
  0 <= x -> (forall i, 32 <= i -> Z.testbit x i = false) -> x < 2 ^ 32.
Proof.
  intros Hx Hbits. destruct (Z_lt_le_dec x (2 ^ 32)) as [|Hge]; [done|].
  exfalso. assert (Hpos : 0 < x) by lia.
  pose proof (Z.bit_log2 x Hpos) as Hb.
  assert (32 <= Z.log2 x) by (apply Z.log2_le_pow2; lia).
  rewrite Hbits in Hb by lia. discriminate.
Qed.

(** X1: [(h >> 17) | (h << 15)] rotates a [uint32_t] right by 17 bits. *)
Theorem rotate_right_17_rotates (h : Z) :
  0 <= h < 2 ^ 32 ->
  0 <= rotate_right_17 h < 2 ^ 32
  /\ forall i, 0 <= i < 32 ->
       Z.testbit (rotate_right_17 h) i = Z.testbit h ((i + 17) mod 32).
Proof.
  intros Hh.
  assert (Hbit : forall i, 0 <= i ->
            Z.testbit (rotate_right_17 h) i
            = Z.testbit h (i + 17) || ((i <? 32) && Z.testbit h (i - 15))).
  { intros i Hi. unfold rotate_right_17, wrap32.
    rewrite Z.lor_spec, Z.shiftr_spec by lia. f_equal.
    destruct (i <? 32) eqn:E; [apply Z.ltb_lt in E | apply Z.ltb_ge in E].
    - rewrite Z.mod_pow2_bits_low by lia.
      destruct (Z_lt_le_dec i 15).
      + rewrite Z.shiftl_spec_low by lia. rewrite (Z.testbit_neg_r h (i - 15)) by lia. done.
      + rewrite Z.shiftl_spec by lia. done.
    - rewrite Z.mod_pow2_bits_high by lia. done. }
  split.
  - split.
    + unfold rotate_right_17, wrap32. apply Z.lor_nonneg. split.
      * apply Z.shiftr_nonneg; lia.
      * apply Z.mod_pos_bound. lia.
    + apply uint32_of_bits.
      * unfold rotate_right_17, wrap32. apply Z.lor_nonneg. split.
        -- apply Z.shiftr_nonneg; lia.
        -- apply Z.mod_pos_bound. lia.
      * intros i Hi. rewrite Hbit by lia.
        rewrite (uint32_high_bits h (i + 17)) by lia.
        replace (i <? 32) with false by (symmetry; apply Z.ltb_ge; lia). done.
  - intros i Hi. rewrite Hbit by lia.
    replace (i <? 32) with true by (symmetry; apply Z.ltb_lt; lia).
    destruct (Z_lt_le_dec i 15).
    + rewrite (Z.testbit_neg_r h (i - 15)) by lia.
      rewrite Z.mod_small by lia. by rewrite orb_false_r.
    + rewrite (uint32_high_bits h (i + 17)) by lia.
      replace ((i + 17) mod 32) with (i - 15); [done|].
      apply Z.mod_unique with 1; lia.
Qed.

(** *** Which bits are set *)

Lemma mask_bits b n : 0 <= b -> Z.testbit (Z.shiftl 1 b) n = (b =? n).
Proof. intros Hb. rewrite Z.shiftl_1_l. by apply Z.pow2_bits_eqb. Qed.

Lemma land_mask_eqb c b :
  0 <= b -> (Z.land c (Z.shiftl 1 b) =? 0) = negb (Z.testbit c b).
Proof.
  intros Hb. destruct (Z.testbit c b) eqn:Hc; simpl.
  - apply Z.eqb_neq. by apply BloomFacts.land_mask_nonzero.
  - apply Z.eqb_eq. apply Z.bits_inj'. intros n Hn.
    rewrite Z.land_spec, mask_bits, Z.bits_0 by done.
    destruct (Z.eqb_spec b n) as [->|]; [by rewrite Hc | apply andb_false_r].
Qed.

Lemma test_probes_Forall j : forall h delta bits array,
  test_probes j h delta bits array = true
  <-> Forall (fun pos => bit_of array pos = true) (probe_positions j h delta bits).
Proof.
  induction j as [|j IH]; intros h delta bits array; simpl.
  - split; [constructor | done].
  - rewrite Forall_cons, <- IH. unfold bit_of.
    rewrite land_mask_eqb by (apply Z.mod_pos_bound; lia).
    destruct (Z.testbit _ _); simpl; [tauto|]. split; [done | by intros [? _]].
Qed.

Lemma probe_positions_range j : forall h delta bits pos,
  0 < bits -> pos ∈ probe_positions j h delta bits -> 0 <= pos < bits.
Proof.
  induction j as [|j IH]; intros h delta bits pos Hb Hin; simpl in Hin.
  - by apply elem_of_nil in Hin.
  - apply elem_of_cons in Hin as [->|Hin]; [by apply BloomFacts.bitpos_range | eauto].
Qed.

(** Bit [n] of byte [i] of the array after the inner loop: set before, or
    probed. *)
Lemma set_probes_bits j : forall h delta bits init dst dst' (i : nat) n,
  set_probes j h delta bits init dst = Some dst' ->
  0 <= n < 8 ->
  Z.testbit (dst' !!! (init + i)%nat) n = true
  <-> Z.testbit (dst !!! (init + i)%nat) n = true
      \/ 8 * Z.of_nat i + n ∈ probe_positions j h delta bits.
Proof.
  induction j as [|j IH]; intros h delta bits init dst dst' i n H Hn; simpl in H.
  - injection H as <-. simpl. rewrite elem_of_nil. tauto.
  - destruct (bits =? 0) eqn:Hb; [discriminate|]. apply Z.eqb_neq in Hb.
    set (bitpos := wrap32 (h mod bits)) in *.
    destruct (dst !! (init + Z.to_nat (bitpos / 8))%nat) as [c|] eqn:Hc; [|discriminate].
    rewrite (IH _ _ _ _ _ _ i n H Hn). simpl. fold bitpos. rewrite elem_of_cons.
    assert (Hpos : 0 <= bitpos).
    { unfold bitpos, wrap32. apply Z.mod_pos_bound. lia. }
    assert (Hq : 0 <= bitpos / 8) by (apply Z.div_pos; lia).
    pose proof (Z.div_mod bitpos 8 ltac:(lia)) as Hdm.
    pose proof (Z.mod_pos_bound bitpos 8 ltac:(lia)) as Hm.
    destruct (decide (i = Z.to_nat (bitpos / 8))) as [->|Hne].
    + rewrite list_lookup_total_insert_eq by (by eapply lookup_lt_Some).
      rewrite (list_lookup_total_correct _ _ _ Hc).
      rewrite BloomFacts.testbit_or_mask by done.
      rewrite mask_bits by lia. rewrite Z2Nat.id by done.
      rewrite orb_true_iff, Z.eqb_eq.
      assert (8 * (bitpos / 8) + n = bitpos <-> bitpos mod 8 = n) by lia. tauto.
    + rewrite list_lookup_total_insert_ne by lia.
      assert (8 * Z.of_nat i + n <> bitpos) by lia. tauto.
Qed.

(** *** More bits in the array *)

Lemma covers_bit_of a b pos :
  length a = length b -> covers a b -> bit_of a pos = true -> bit_of b pos = true.
Proof.
  intros Hl Hc. unfold bit_of.
  destruct (a !! Z.to_nat (pos / 8)) as [x|] eqn:Ha.
  - destruct (Hc _ _ Ha) as (y & Hb & Hxy).
    rewrite (list_lookup_total_correct _ _ _ Ha), (list_lookup_total_correct _ _ _ Hb).
    apply Hxy. apply Z.mod_pos_bound. lia.
  - assert (Hb : b !! Z.to_nat (pos / 8) = None).
    { apply lookup_ge_None. rewrite <- Hl. by apply lookup_ge_None. }
    by rewrite !list_lookup_total_alt, Ha, Hb.
Qed.

Lemma covers_snoc a b c :
  length a = length b -> covers a b -> covers (a ++ [c]) (b ++ [c]).
Proof.
  intros Hl Hc i x Hx.
  destruct (decide (i < length a)%nat) as [Hi|Hi].
  - rewrite lookup_app_l in Hx by done.
    destruct (Hc i x Hx) as (y & Hy & Hxy).
    exists y. split; [|done]. rewrite lookup_app_l by lia. done.
  - rewrite lookup_app_r in Hx by lia.
    exists x. split; [|done]. rewrite lookup_app_r by lia. by rewrite <- Hl.
Qed.

(** Bytes with all eight bits set cover any array of their length. *)
Lemma covers_full a : covers a (replicate (length a) 255).
Proof.
  intros i c Hi. exists 255. split.
  - apply lookup_replicate_2. by apply lookup_lt_Some in Hi.
  - intros n Hn _. change 255 with (Z.ones 8). apply Z.ones_spec_low. lia.
Qed.

Section WithHash.
Variable Hash : Slice -> Z -> Z.

Local Abbreviation key_probes := (BloomProbes.key_probes Hash).

Lemma add_keys_bits p keys : forall bits init dst dst' (i : nat) n,
  add_keys Hash p keys bits init dst = Some dst' ->
  0 <= n < 8 ->
  Z.testbit (dst' !!! (init + i)%nat) n = true
  <-> Z.testbit (dst !!! (init + i)%nat) n = true
      \/ exists key, key ∈ keys /\ 8 * Z.of_nat i + n ∈ key_probes (k_ p) bits key.
Proof.
  induction keys as [|key keys IH]; intros bits init dst dst' i n H Hn; simpl in H.
  - injection H as <-. split; [tauto|]. intros [?|(key & Hin & _)]; [done|].
    by apply elem_of_nil in Hin.
  - destruct (set_probes _ _ _ _ _ _) as [dst1|] eqn:H1; [|discriminate].
    rewrite (IH _ _ _ _ i n H Hn), (set_probes_bits _ _ _ _ _ _ _ i n H1 Hn).
    split.
    + intros [[?|?]|(key' & Hin & ?)]; [tauto | |].
      * right. exists key. split; [left|done].
      * right. exists key'. split; [by right|done].
    + intros [?|(key' & Hin & ?)]; [tauto|].
      apply elem_of_cons in Hin as [->|Hin]; [tauto|]. right. by exists key'.
Qed.

(** The bits of a filter as [CreateFilter] leaves them: set exactly at the
    positions probed for the keys. *)
Lemma filter_bits p keys dst f pos :
  CreateFilter Hash p keys dst = Some f ->
  0 <= pos < 8 * filter_bytes p (Z.of_nat (length keys)) ->
  bit_of (drop (length dst) f) pos = true
  <-> exists key, key ∈ keys
        /\ pos ∈ key_probes (k_ p)
                   (wrap64 (filter_bytes p (Z.of_nat (length keys)) * 8)) key.
Proof.
  rewrite BloomFacts.CreateFilter_unfold. intros Hf Hpos.
  set (nb := filter_bytes p (Z.of_nat (length keys))) in *.
  assert (Hq : 0 <= pos / 8 < nb).
  { split; [apply Z.div_pos; lia | apply Z.div_lt_upper_bound; lia]. }
  pose proof (Z.div_mod pos 8 ltac:(lia)) as Hdm.
  pose proof (Z.mod_pos_bound pos 8 ltac:(lia)) as Hm.
  unfold bit_of. rewrite lookup_total_drop.
  rewrite (add_keys_bits p keys _ _ _ _ (Z.to_nat (pos / 8)) (pos mod 8) Hf Hm).
  rewrite Z2Nat.id by lia. replace (8 * (pos / 8) + pos mod 8) with pos by lia.
  assert (Hzero : ((dst ++ replicate (Z.to_nat nb) 0) ++ [wrap8 (k_ p)])
                    !!! (length dst + Z.to_nat (pos / 8))%nat = 0).
  { rewrite lookup_total_app_l by (rewrite length_app, length_replicate; lia).
    rewrite lookup_total_app_r by lia.
    apply lookup_total_replicate_2. lia. }
  rewrite Hzero, Z.bits_0. split; [intros [?|?]; [done|done] | auto].
Qed.

(** On a filter that [CreateFilter] made, [KeyMayMatch] is its probing loop
    with the [k_] and the bit count of the maker, whichever policy asks. *)
Lemma KeyMayMatch_created p q keys dst f key :
  1 <= k_ p <= 30 ->
  CreateFilter Hash p keys dst = Some f ->
  1 <= filter_bytes p (Z.of_nat (length keys))
  /\ KeyMayMatch Hash q key (drop (length dst) f)
     = test_probes (Z.to_nat (k_ p)) (BloomHash Hash key)
         (rotate_right_17 (BloomHash Hash key))
         (wrap64 (filter_bytes p (Z.of_nat (length keys)) * 8))
         (drop (length dst) f).
Proof.
  intros Hk Hf.
  destruct (BloomFacts.CreateFilter_shape _ _ _ _ _ Hf) as (array & Hshape & Hlen).
  rewrite BloomFacts.CreateFilter_unfold in Hf.
  set (nb := filter_bytes p (Z.of_nat (length keys))) in *.
  pose proof (BloomFacts.filter_bytes_nonneg p (Z.of_nat (length keys))) as Hnb0.
  fold nb in Hnb0.
  assert (Hnb1 : 1 <= nb).
  { destruct keys as [|key0 keys]; [by compute|].
    assert (Hbits : wrap64 (nb * 8) <> 0)
      by (by apply (BloomFacts.add_keys_bits_nonzero Hash p (key0 :: keys) _ _ _ _
                      ltac:(done) ltac:(lia) Hf)).
    destruct (Z_lt_le_dec nb 1); [|done]. assert (nb = 0) as E by lia.
    rewrite E in Hbits. by compute in Hbits. }
  split; [done|].
  assert (Hdrop : drop (length dst) f = array ++ [wrap8 (k_ p)])
    by (rewrite Hshape; by rewrite drop_app_length).
  rewrite Hdrop. unfold KeyMayMatch.
  assert (Hl : Z.of_nat (length (array ++ [wrap8 (k_ p)])) = nb + 1)
    by (rewrite length_app; simpl; lia).
  rewrite Hl.
  replace (nb + 1 <? 2) with false by (symmetry; apply Z.ltb_ge; lia).
  replace (nb + 1 - 1) with nb by lia.
  assert (Hlast : (array ++ [wrap8 (k_ p)]) !!! Z.to_nat nb = k_ p).
  { apply list_lookup_total_correct.
    rewrite lookup_app_r by lia. rewrite Hlen, Nat.sub_diag. simpl.
    f_equal. unfold wrap8. apply Z.mod_small. lia. }
  rewrite Hlast. unfold char_to_size_t.
  replace (k_ p <? 128) with true by (symmetry; apply Z.ltb_lt; lia).
  replace (30 <? k_ p) with false by (symmetry; apply Z.ltb_ge; lia).
  reflexivity.
Qed.

Lemma filter_bytes_small p n : filter_bytes p n * 8 < 2 ^ 64.
Proof.
  unfold filter_bytes.
  set (x := wrap64 (_ + 7)).
  assert (0 <= x < 2 ^ 64) by (apply Z.mod_pos_bound; lia).
  pose proof (Z.mul_div_le x 8 ltac:(lia)). lia.
Qed.

(** X2: on a filter made by [CreateFilter], [KeyMayMatch] answers true for a
    key exactly when every bit position probed for it is also probed for
    some key of the list the filter was made from. *)
Theorem KeyMayMatch_exact (bits_per_key : Z) (p : BloomFilterPolicy_t)
    (keys : list Slice) (dst f : list Z) (key : Slice) :
  BloomFilterPolicy bits_per_key = Some p ->
  CreateFilter Hash p keys dst = Some f ->
  let filter := drop (length dst) f in
  let bits := 8 * (Z.of_nat (length filter) - 1) in
  KeyMayMatch Hash p key filter = true
  <-> forall pos, pos ∈ key_probes (k_ p) bits key ->
        exists key', key' ∈ keys /\ pos ∈ key_probes (k_ p) bits key'.
Proof.
  intros Hp Hf. cbv zeta.
  set (bits := 8 * (Z.of_nat (length (drop (length dst) f)) - 1)).
  pose proof (PolicyFacts.BloomFilterPolicy_k _ _ Hp) as Hk.
  destruct (KeyMayMatch_created p p keys dst f key Hk Hf) as [Hnb ->].
  destruct (BloomFacts.CreateFilter_shape _ _ _ _ _ Hf) as (array & Hshape & Hlen).
  pose proof (filter_bytes_small p (Z.of_nat (length keys))) as Hsmall.
  set (nb := filter_bytes p (Z.of_nat (length keys))) in *.
  assert (Hbits : bits = wrap64 (nb * 8)).
  { unfold bits. rewrite Hshape, drop_app_length, length_app. simpl.
    unfold wrap64. rewrite Z.mod_small by lia. lia. }
  rewrite Hbits, test_probes_Forall, Forall_forall.
  assert (Hw : wrap64 (nb * 8) = nb * 8) by (unfold wrap64; apply Z.mod_small; lia).
  split; intros H pos Hin.
  - apply (filter_bits p keys dst f pos Hf).
    + apply probe_positions_range in Hin; lia.
    + by apply H.
  - apply (filter_bits p keys dst f pos Hf).
    + apply probe_positions_range in Hin; lia.
    + by apply H.
Qed.

(** X3: made from no key at all, the filter is eight zero bytes and the
    byte holding [k_]; it matches no key. *)
Theorem CreateFilter_no_keys (bits_per_key : Z) (p : BloomFilterPolicy_t)
    (dst : list Z) (key : Slice) :
  BloomFilterPolicy bits_per_key = Some p ->
  CreateFilter Hash p [] dst = Some (dst ++ replicate 8 0 ++ [k_ p])
  /\ KeyMayMatch Hash p key (replicate 8 0 ++ [k_ p]) = false.
Proof.
  intros Hp. pose proof (PolicyFacts.BloomFilterPolicy_k _ _ Hp) as Hk.
  assert (Hw : wrap8 (k_ p) = k_ p) by (unfold wrap8; apply Z.mod_small; lia).
  assert (Hmade : forall d, CreateFilter Hash p [] d = Some (d ++ replicate 8 0 ++ [k_ p])).
  { intros d. rewrite BloomFacts.CreateFilter_unfold. simpl length.
    change (filter_bytes p (Z.of_nat 0)) with 8. simpl. by rewrite Hw, <- app_assoc. }
  split; [apply Hmade|].
  destruct (KeyMayMatch_created p p [] [] _ key Hk (Hmade [])) as [_ Hkm].
  simpl in Hkm. simpl. rewrite Hkm. apply not_true_is_false. intros Htrue.
  apply test_probes_Forall in Htrue.
  destruct (Z.to_nat (k_ p)) as [|j] eqn:Hj; [lia|]. simpl in Htrue.
  apply Forall_cons in Htrue as [Hbit _].
  apply (filter_bits p [] [] _ _ (Hmade [])) in Hbit as (key' & Hin & _).
  - by apply elem_of_nil in Hin.
  - change (filter_bytes p (Z.of_nat (length []))) with 8.
    change (wrap64 (filter_bytes p (Z.of_nat 0) * 8)) with 64.
    pose proof (BloomFacts.bitpos_range (BloomHash Hash key) 64 ltac:(lia)). lia.
Qed.

(** *** Where the filter is written *)

Lemma set_probes_offset j : forall h delta bits (pre l : list Z),
  set_probes j h delta bits (length pre) (pre ++ l)
  = (pre ++.) <$> set_probes j h delta bits 0 l.
Proof.
  induction j as [|j IH]; intros h delta bits pre l; simpl; [done|].
  destruct (bits =? 0); [done|].
  rewrite lookup_app_r by lia.
  replace (length pre + Z.to_nat (wrap32 (h mod bits) / 8) - length pre)%nat
    with (Z.to_nat (wrap32 (h mod bits) / 8)) by lia.
  destruct (l !! Z.to_nat (wrap32 (h mod bits) / 8)) as [c|]; [|done].
  rewrite insert_app_r. apply IH.
Qed.

Lemma add_keys_offset p keys : forall bits (pre l : list Z),
  add_keys Hash p keys bits (length pre) (pre ++ l)
  = (pre ++.) <$> add_keys Hash p keys bits 0 l.
Proof.
  induction keys as [|key keys IH]; intros bits pre l; simpl; [done|].
  rewrite set_probes_offset.
  destruct (set_probes _ _ _ _ 0 l) as [l1|]; simpl; [apply IH | done].
Qed.

(** X4: what [CreateFilter] appends does not depend on what [dst] holds:
    the result on [dst] is [dst] followed by the result on an empty string.
    Two filters made one after the other into one buffer are the two
    filters side by side. *)
Theorem CreateFilter_offset (p : BloomFilterPolicy_t) (keys : list Slice) (dst : list Z) :
  CreateFilter Hash p keys dst = (dst ++.) <$> CreateFilter Hash p keys []
  /\ forall keys2 f1 f2,
       CreateFilter Hash p keys [] = Some f1 ->
       CreateFilter Hash p keys2 [] = Some f2 ->
       CreateFilter Hash p keys dst ≫= CreateFilter Hash p keys2
       = Some (dst ++ f1 ++ f2).
Proof.
  assert (Hoff : forall ks d,
             CreateFilter Hash p ks d = (d ++.) <$> CreateFilter Hash p ks []).
  { intros ks d. rewrite !BloomFacts.CreateFilter_unfold. simpl length.
    rewrite <- (app_assoc d). rewrite add_keys_offset. done. }
  split; [apply Hoff|].
  intros keys2 f1 f2 H1 H2. rewrite Hoff, H1. simpl.
  rewrite Hoff, H2. simpl. by rewrite app_assoc.
Qed.

(** *** Reading a filter *)

(** X5: [KeyMayMatch] takes the probe count from the filter, not from the
    policy that asks: a filter made under one policy is answered by any
    other policy as by its maker, and so without false negatives. *)
Theorem filter_read_by_any_policy (bits_per_key : Z) (p q : BloomFilterPolicy_t)
    (keys : list Slice) (dst f : list Z) (key : Slice) :
  BloomFilterPolicy bits_per_key = Some p ->
  CreateFilter Hash p keys dst = Some f ->
  (forall key', KeyMayMatch Hash q key' (drop (length dst) f)
                = KeyMayMatch Hash p key' (drop (length dst) f))
  /\ (key ∈ keys -> KeyMayMatch Hash q key (drop (length dst) f) = true).
Proof.
  intros Hp Hf. pose proof (PolicyFacts.BloomFilterPolicy_k _ _ Hp) as Hk.
  split.
  - intros key'.
    destruct (KeyMayMatch_created p q keys dst f key' Hk Hf) as [_ ->].
    by destruct (KeyMayMatch_created p p keys dst f key' Hk Hf) as [_ ->].
  - intros Hin. destruct (KeyMayMatch_created p q keys dst f key Hk Hf) as [_ ->].
    rewrite BloomFacts.CreateFilter_unfold in Hf.
    by apply (BloomFacts.add_keys_test Hash p keys key _ _ _ _ Hin Hf).
Qed.

(** X6: a probe count above 30 in the last byte is reserved: such a filter
    matches every key, whatever its bits. *)
Theorem KeyMayMatch_reserved (p : BloomFilterPolicy_t) (key : Slice)
    (array : list Z) (c : Z) :
  array <> [] -> 30 < c < 256 ->
  KeyMayMatch Hash p key (array ++ [c]) = true.
Proof.
  intros Harr Hc. unfold KeyMayMatch. rewrite length_app. simpl length.
  assert (1 <= length array)%nat by (destruct array; [done | simpl; lia]).
  replace (Z.of_nat (length array + 1) <? 2) with false
    by (symmetry; apply Z.ltb_ge; lia).
  replace (Z.to_nat (Z.of_nat (length array + 1) - 1)) with (length array) by lia.
  rewrite lookup_total_app_r, Nat.sub_diag by lia. simpl.
  assert (Hk : 30 < char_to_size_t c).
  { unfold char_to_size_t, wrap64. destruct (c <? 128) eqn:E; [lia|].
    apply Z.ltb_ge in E.
    replace ((c - 256) mod 2 ^ 64) with (c - 256 + 2 ^ 64); [lia|].
    apply Z.mod_unique with (-1); lia. }
  apply Z.ltb_lt in Hk. by rewrite Hk.
Qed.

Lemma test_probes_checked_eq j : forall h delta bits array,
  0 < bits <= 8 * (Z.of_nat (length array) - 1) ->
  test_probes_checked j h delta bits array = Some (test_probes j h delta bits array).
Proof.
  induction j as [|j IH]; intros h delta bits array Hb; simpl; [done|].
  replace (bits =? 0) with false by (symmetry; apply Z.eqb_neq; lia).
  pose proof (BloomFacts.bitpos_byte h bits (Z.of_nat (length array) - 1)
                ltac:(lia) ltac:(lia)) as Hi.
  destruct (lookup_lt_is_Some_2 array (Z.to_nat (wrap32 (h mod bits) / 8))) as [c Hc];
    [lia|].
  rewrite Hc, (list_lookup_total_correct _ _ _ Hc).
  destruct (Z.land c _ =? 0); [done | by apply IH].
Qed.

(** X7: whatever bytes it is given as a filter, [KeyMayMatch] divides by no
    zero and reads no byte outside the filter: the run with every read
    checked gives the same answer. *)
Theorem KeyMayMatch_in_bounds (p : BloomFilterPolicy_t) (key : Slice) (f : list Z) :
  Z.of_nat (length f) <= 2 ^ 61 ->
  KeyMayMatch_checked Hash p key f = Some (KeyMayMatch Hash p key f).
Proof.
  intros Hlen. unfold KeyMayMatch_checked, KeyMayMatch.
  destruct (Z.of_nat (length f) <? 2) eqn:E; [done|]. apply Z.ltb_ge in E.
  destruct (lookup_lt_is_Some_2 f (Z.to_nat (Z.of_nat (length f) - 1))) as [c Hc]; [lia|].
  rewrite Hc, (list_lookup_total_correct _ _ _ Hc).
  destruct (30 <? char_to_size_t c); [done|].
  apply test_probes_checked_eq.
  unfold wrap64. rewrite Z.mod_small by lia. lia.
Qed.



(** X17: the policy built from -1 is of no use on a small list: with
    [bits_per_key_] at 2^64 - 1, the bit count of one to seven keys wraps
    around, no byte is reserved for the array, and [CreateFilter] computes
    [h % 0]. *)
Theorem CreateFilter_minus_one (p : BloomFilterPolicy_t) (keys : list Slice)
    (dst : list Z) :
  BloomFilterPolicy (-1) = Some p ->
  (1 <= length keys <= 7)%nat ->
  bits_per_key_ p = 2 ^ 64 - 1
  /\ filter_bytes p (Z.of_nat (length keys)) = 0
  /\ CreateFilter Hash p keys dst = None.
Proof.
  intros Hp Hn. vm_compute in Hp. injection Hp as <-.
  split; [reflexivity|].
  do 8 (destruct keys as [|? keys]; [simpl in Hn; try lia; split; reflexivity|]).
  simpl in Hn. lia.
Qed.

(** X18: [KeyMayMatch] only asks for bits to be set: a match stays a match
    on any array of the same length that has at least the same bits, under
    the same probe count. *)
Theorem KeyMayMatch_monotone (p : BloomFilterPolicy_t) (key : Slice)
    (array array' : list Z) (c : Z) :
  length array = length array' ->
  covers array array' ->
  KeyMayMatch Hash p key (array ++ [c]) = true ->
  KeyMayMatch Hash p key (array' ++ [c]) = true.
Proof.
  intros Hl Hc. unfold KeyMayMatch. rewrite !length_app, <- Hl. simpl length.
  destruct (Z.of_nat (length array + 1) <? 2); [done|].
  replace (Z.to_nat (Z.of_nat (length array + 1) - 1)) with (length array) by lia.
  rewrite !lookup_total_app_r by lia. rewrite <- Hl, Nat.sub_diag.
  destruct (30 <? _); [done|].
  rewrite !test_probes_Forall. intros H. eapply Forall_impl; [exact H|].
  intros pos. apply covers_bit_of; [rewrite !length_app; simpl; lia | by apply covers_snoc].
Qed.

End WithHash.

Import Examples MoreExamples.

Lemma rotate_right_17_rotates_witness :
  0 <= 0x12345678 < 2 ^ 32
  /\ 0 <= rotate_right_17 0x12345678 < 2 ^ 32
  /\ forall i, 0 <= i < 32 ->
       Z.testbit (rotate_right_17 0x12345678) i = Z.testbit 0x12345678 ((i + 17) mod 32).
Proof.
  assert (H : 0 <= 0x12345678 < 2 ^ 32) by lia.
  split; [exact H|]. exact (rotate_right_17_rotates 0x12345678 H).
Defined.

Lemma KeyMayMatch_exact_witness :
  BloomFilterPolicy 10 = Some policy10
  /\ CreateFilter toy_Hash policy10 two_keys [] = Some filter10
  /\ (KeyMayMatch toy_Hash policy10 [Byte.x64] filter10 = true
      <-> forall pos, pos ∈ BloomProbes.key_probes toy_Hash 6 64 [Byte.x64] ->
            exists key', key' ∈ two_keys
                         /\ pos ∈ BloomProbes.key_probes toy_Hash 6 64 key').
Proof.
  split; [reflexivity|]. split; [reflexivity|].
  exact (KeyMayMatch_exact toy_Hash 10 policy10 two_keys [] filter10 [Byte.x64]
           eq_refl eq_refl).
Defined.

Lemma CreateFilter_no_keys_witness :
  BloomFilterPolicy 10 = Some policy10
  /\ CreateFilter toy_Hash policy10 [] [7] = Some ([7] ++ replicate 8 0 ++ [k_ policy10])
  /\ KeyMayMatch toy_Hash policy10 key_a (replicate 8 0 ++ [k_ policy10]) = false.
Proof.
  split; [reflexivity|].
  exact (CreateFilter_no_keys toy_Hash 10 policy10 [7] key_a eq_refl).
Defined.

Lemma filter_read_by_any_policy_witness :
  BloomFilterPolicy 10 = Some policy10
  /\ CreateFilter toy_Hash policy10 two_keys [] = Some filter10
  /\ key_bc ∈ two_keys
  /\ KeyMayMatch toy_Hash policy20 key_bc filter10 = true.
Proof.
  assert (Hin : key_bc ∈ two_keys) by (right; left).
  split; [reflexivity|]. split; [reflexivity|]. split; [exact Hin|].
  exact (proj2 (filter_read_by_any_policy toy_Hash 10 policy10 policy20 two_keys []
                  filter10 key_bc eq_refl eq_refl) Hin).
Defined.

Lemma KeyMayMatch_reserved_witness :
  [0; 0] <> [] /\ 30 < 200 < 256
  /\ KeyMayMatch toy_Hash policy10 key_a ([0; 0] ++ [200]) = true.
Proof.
  assert (Hne : [0; 0] <> ([] : list Z)) by discriminate.
  assert (Hc : 30 < 200 < 256) by lia.
  split; [exact Hne|]. split; [exact Hc|].
  exact (KeyMayMatch_reserved toy_Hash policy10 key_a [0; 0] 200 Hne Hc).
Defined.

Lemma KeyMayMatch_in_bounds_witness :
  Z.of_nat (length filter10) <= 2 ^ 61
  /\ BloomProbes.KeyMayMatch_checked toy_Hash policy10 key_a filter10
     = Some (KeyMayMatch toy_Hash policy10 key_a filter10).
Proof.
  assert (H : Z.of_nat (length filter10) <= 2 ^ 61) by (simpl; lia).
  split; [exact H|]. exact (KeyMayMatch_in_bounds toy_Hash policy10 key_a filter10 H).
Defined.

Lemma CreateFilter_minus_one_witness :
  BloomFilterPolicy (-1) = Some policy_minus_1
  /\ (1 <= length two_keys <= 7)%nat
  /\ CreateFilter toy_Hash policy_minus_1 two_keys [7] = None.
Proof.
  assert (Hn : (1 <= length two_keys <= 7)%nat) by (simpl; lia).
  split; [reflexivity|]. split; [exact Hn|].
  exact (proj2 (proj2 (CreateFilter_minus_one toy_Hash policy_minus_1 two_keys [7]
                         eq_refl Hn))).
Defined.

Lemma KeyMayMatch_monotone_witness :
  length (take 8 filter10) = length (replicate 8 255 : list Z)
  /\ covers (take 8 filter10) (replicate 8 255)
  /\ KeyMayMatch toy_Hash policy10 key_a (take 8 filter10 ++ [6]) = true
  /\ KeyMayMatch toy_Hash policy10 key_a (replicate 8 255 ++ [6]) = true.
Proof.
  assert (Hc : covers (take 8 filter10) (replicate 8 255))
    by exact (covers_full (take 8 filter10)).
  split; [reflexivity|]. split; [exact Hc|]. split; [reflexivity|].
  exact (KeyMayMatch_monotone toy_Hash policy10 key_a (take 8 filter10)
           (replicate 8 255) 6 eq_refl Hc eq_refl).
Defined.

End BloomMore.

(** ** More on BuildTable *)

Module BuilderMore.
Section WithCollaborators.
Import Builder BuilderTrace.

Variable TableFileName : string -> Z -> string.
Variable new_TableBuilder : WritableFile -> TableBuilder.

Local Abbreviation BuildTable := (Builder.BuildTable TableFileName new_TableBuilder).

Ltac norm :=
  cbn [ok negb andb fst snd number file_size smallest largest allowed_seeks
       set_file_size set_smallest set_largest trace_of].

(** Case analysis over the answers of the collaborators, in call order. *)
Ltac cases :=
  unfold Builder.BuildTable, Builder.write_table, Builder.finish_build;
  repeat match goal with
  | _ => progress norm
  | |- context [NewWritableFile ?e ?f] =>
      let s := fresh "news" in let file := fresh "file" in
      destruct (NewWritableFile e f) as [s file]; destruct s
  | |- context [add_loop ?r ?m] => rewrite (BuilderFacts.add_loop_eq r m)
  | H : last ?l = Some _ |- context [last ?l] => rewrite H
  | |- context [ok (Finish ?b ?l)] => destruct (Finish b l) eqn:?
  | |- context [0 <? wrap64 ?x] => destruct (0 <? wrap64 x) eqn:?
  | |- context [ok (Sync ?f)] => destruct (Sync f) eqn:?
  | |- context [ok (Close ?f)] => destruct (Close f) eqn:?
  | |- context [ok (status ?i)] => destruct (status i) eqn:?
  | |- context [NewIterator ?c ?n ?z] =>
      lazymatch goal with
      | |- context [ok (NewIterator c n z)] => destruct (NewIterator c n z) eqn:?
      end
  end.

Lemma wrap64_pos_or_zero x : (0 <? wrap64 x) = false -> wrap64 x = 0.
Proof.
  intros H. apply Z.ltb_ge in H.
  pose proof (Z.mod_pos_bound x (2 ^ 64) ltac:(lia)). unfold wrap64 in *. lia.
Qed.

(** X9: [BuildTable] returns OK exactly when the input iterator reports no
    error and either yields nothing or every call made for the table
    answers OK: the creation of the file, [Finish], [Sync], [Close] and the
    validation, with a positive file size. *)
Theorem BuildTable_ok_iff dbname env table_cache iter meta :
  let fname := TableFileName dbname (number meta) in
  let file := (NewWritableFile env fname).2 in
  let builder := new_TableBuilder file in
  let size := wrap64 (FileSize builder (entries iter)) in
  (exists meta' tr, BuildTable dbname env table_cache iter meta = Returns OK meta' tr)
  <-> status iter = OK
      /\ (entries iter = []
          \/ ((NewWritableFile env fname).1 = OK
              /\ Finish builder (entries iter) = OK
              /\ 0 < size
              /\ Sync file = OK
              /\ Close file = OK
              /\ NewIterator table_cache (number meta) size = OK)).
Proof.
  cbv zeta. unfold Builder.BuildTable.
  destruct (entries iter) as [|[k0 v0] rest] eqn:Hentries.
  - cases; split.
    all: try (intros _; eauto; fail).
    all: try (intros (m & t & [=]); fail).
    all: try (intros [[=] _]; fail).
    all: try (intros _; split; [done | by left]).
  - assert (is_Some (last ((k0, v0) :: rest))) as [[kn vn] Hlast]
      by (by apply last_is_Some).
    cases; split.
    all: try (intros _; eauto; fail).
    all: try (intros (m & t & [=]); fail).
    all: try (intros [[=] _]; fail).
    all: try (intros [_ [[=]|(? & ? & ? & ? & ? & ?)]]; try done; try lia; fail).
    all: try (intros _; split; [done|]; right; repeat split; try done;
              by apply Z.ltb_lt).
    all: try (intros [_ [[=]|(? & ? & Hsz & ? & ? & ?)]];
              apply Z.ltb_ge in Heqb; lia).
Qed.

(** X10: [BuildTable] stops on its assertion exactly when [Finish] answers
    OK for a table whose file size is zero; otherwise it returns. *)
Theorem BuildTable_aborts_iff dbname env table_cache iter meta :
  let fname := TableFileName dbname (number meta) in
  let builder := new_TableBuilder (NewWritableFile env fname).2 in
  (exists tr, BuildTable dbname env table_cache iter meta = Aborts tr)
  <-> entries iter <> []
      /\ (NewWritableFile env fname).1 = OK
      /\ Finish builder (entries iter) = OK
      /\ wrap64 (FileSize builder (entries iter)) = 0.
Proof.
  cbv zeta. unfold Builder.BuildTable.
  destruct (entries iter) as [|[k0 v0] rest] eqn:Hentries.
  - cases; split; try (intros [t [=]]; fail); by intros [? _].
  - assert (is_Some (last ((k0, v0) :: rest))) as [[kn vn] Hlast]
      by (by apply last_is_Some).
    cases; split.
    all: try (intros [t [=]]; fail).
    all: try (intros _; eauto; fail).
    all: try (intros (_ & ? & ? & ?); try discriminate;
              match goal with
              | H : (0 <? _) = true |- _ => apply Z.ltb_lt in H; lia
              end).
    all: intros _; repeat split; try done; by apply wrap64_pos_or_zero.
Qed.

(** A file created and never deleted is there. *)
Lemma files_after_created tr : forall fs fname,
  (forall f, EvDeleteFile f ∉ tr) ->
  fname ∈ fs \/ EvNewWritableFile fname OK ∈ tr ->
  fname ∈ files_after fs tr.
Proof.
  induction tr as [|e tr IH]; intros fs fname Hdel Hin.
  - destruct Hin as [Hin|Hin]; [done | by apply elem_of_nil in Hin].
  - change (files_after fs (e :: tr)) with (files_after (apply_event fs e) tr).
    apply IH.
    + intros f Hf. apply (Hdel f). by right.
    + destruct Hin as [Hin|Hin].
      * left. destruct e as [f0 [|c m]| | | | | | | | | |f0]; simpl; try done.
        -- by right.
        -- exfalso. apply (Hdel f0). by left.
      * apply elem_of_cons in Hin as [<-|Hin]; [left; simpl; by left | by right].
Qed.

(** X11: a delete is issued only on the table file and only when the
    status is not OK or the file size is zero.  A build that returns OK with
    a positive size has created the file and deleted nothing: the file is
    there afterwards. *)
Theorem BuildTable_keeps_file dbname env table_cache iter meta s meta' tr :
  BuildTable dbname env table_cache iter meta = Returns s meta' tr ->
  let fname := TableFileName dbname (number meta) in
  (forall f, EvDeleteFile f ∈ tr -> f = fname /\ (ok s = false \/ file_size meta' = 0))
  /\ (ok s = true -> 0 < file_size meta' ->
      (forall f, EvDeleteFile f ∉ tr)
      /\ EvNewWritableFile fname OK ∈ tr
      /\ forall fs, fname ∈ files_after fs tr).
Proof.
  cbv zeta. unfold Builder.BuildTable.
  destruct (entries iter) as [|[k0 v0] rest] eqn:Hentries.
  - cases; intros [= <- <- <-]; norm; (split; [set_solver|]); intros; lia.
  - assert (is_Some (last ((k0, v0) :: rest))) as [[kn vn] Hlast]
      by (by apply last_is_Some).
    cases; intros [= <- <- <-]; norm.
    all: split; [intros f Hin; set_unfold; naive_solver|].
    all: intros Hok Hsz; try discriminate Hok; try lia.
    all: split; [intros f Hin; set_unfold; naive_solver|].
    all: split; [set_solver|].
    all: intros fs; apply files_after_created;
      [intros f Hin; set_unfold; naive_solver | right; set_solver].
Qed.

Lemma added_app tr1 tr2 : added (tr1 ++ tr2) = added tr1 ++ added tr2.
Proof. apply omap_app. Qed.

Lemma added_adds (l : list (Slice * Slice)) :
  added ((λ kv, EvAdd kv.1 kv.2) <$> l) = l.
Proof. induction l as [|[k v] l IH]; [done|]. simpl. f_equal. exact IH. Qed.

(** X12: once the file is created, the trace begins with the creation, the
    new builder, one [Add] per entry of the input in the order the iterator
    gives them, and [Finish]; nothing is added after [Finish].  Without the
    file, nothing is added at all. *)
Theorem BuildTable_adds_in_order dbname env table_cache iter meta :
  let fname := TableFileName dbname (number meta) in
  let tr := trace_of (BuildTable dbname env table_cache iter meta) in
  added tr = (if ok (NewWritableFile env fname).1 then entries iter else [])
  /\ (entries iter <> [] -> (NewWritableFile env fname).1 = OK ->
      exists post,
        tr = [EvNewWritableFile fname OK; EvNewTableBuilder]
             ++ ((λ kv, EvAdd kv.1 kv.2) <$> entries iter)
             ++ [EvFinish (Finish (new_TableBuilder (NewWritableFile env fname).2)
                             (entries iter))]
             ++ post
        /\ added post = []).
Proof.
  cbv zeta. unfold Builder.BuildTable.
  destruct (entries iter) as [|[k0 v0] rest] eqn:Hentries.
  - cases; (split; [done|]); by intros [].
  - assert (is_Some (last ((k0, v0) :: rest))) as [[kn vn] Hlast]
      by (by apply last_is_Some).
    cases.
    all: split; [rewrite ?added_app, ?added_adds; simpl; by rewrite ?app_nil_r|].
    all: intros _ Hnews; try discriminate Hnews.
    all: rewrite <- ?app_assoc; simpl; rewrite <- ?app_assoc; simpl.
    all: rewrite ?Heqs0; eexists; (split; [reflexivity|]); reflexivity.
Qed.

Lemma filter_adds which (l : list (Slice * Slice)) :
  (forall k v, which (EvAdd k v) = false) ->
  List.filter which (list_fmap _ _ (λ kv, EvAdd kv.1 kv.2) l) = [].
Proof.
  intros Hw. induction l as [|kv l IH]; [done|]. simpl. by rewrite Hw.
Qed.

(** X13: whenever [BuildTable] returns, it has released what it made: the
    file is created at most once and only for a non-empty input, and the
    builder made for it and the file object are each deleted exactly
    once. *)
Theorem BuildTable_releases dbname env table_cache iter meta s meta' tr :
  BuildTable dbname env table_cache iter meta = Returns s meta' tr ->
  calls is_NewWritableFile tr = (if decide (entries iter = []) then 0 else 1)%nat
  /\ (calls is_NewTableBuilder tr <= 1)%nat
  /\ calls is_DeleteBuilder tr = calls is_NewTableBuilder tr
  /\ calls is_DeleteFileObject tr = calls is_NewTableBuilder tr
  /\ (calls is_DeleteFile tr <= 1)%nat.
Proof.
  unfold Builder.BuildTable.
  destruct (entries iter) as [|[k0 v0] rest] eqn:Hentries.
  - cases; intros [= <- <- <-]; cbn; repeat split; lia.
  - assert (is_Some (last ((k0, v0) :: rest))) as [[kn vn] Hlast]
      by (by apply last_is_Some).
    cases; intros [= <- <- <-]; unfold calls; cbn;
      rewrite ?List.filter_app, ?length_app, ?filter_adds by done; cbn;
      repeat split; lia.
Qed.

(** X14: [BuildTable] never touches [number] and [allowed_seeks].  The
    [file_size] it leaves is zero unless [Finish] answered OK, and is then
    the builder's positive size, also when the build fails afterwards.
    [smallest] and [largest] are the first and the last key as soon as the
    file is created, and untouched otherwise. *)
Theorem BuildTable_meta_frame dbname env table_cache iter meta s meta' tr :
  BuildTable dbname env table_cache iter meta = Returns s meta' tr ->
  let fname := TableFileName dbname (number meta) in
  let builder := new_TableBuilder (NewWritableFile env fname).2 in
  number meta' = number meta
  /\ allowed_seeks meta' = allowed_seeks meta
  /\ file_size meta'
     = (if ok (NewWritableFile env fname).1 && ok (Finish builder (entries iter))
           && bool_decide (entries iter <> [])
        then wrap64 (FileSize builder (entries iter)) else 0)
  /\ (0 < file_size meta' -> EvFinish OK ∈ tr)
  /\ (if ok (NewWritableFile env fname).1 && bool_decide (entries iter <> [])
      then (fst <$> head (entries iter)) = Some (smallest meta')
           /\ (fst <$> last (entries iter)) = Some (largest meta')
      else smallest meta' = smallest meta /\ largest meta' = largest meta).
Proof.
  cbv zeta. unfold Builder.BuildTable.
  destruct (entries iter) as [|[k0 v0] rest] eqn:Hentries.
  - cases; intros [= <- <- <-]; norm; rewrite ?andb_false_r; repeat split; try done; lia.
  - assert (is_Some (last ((k0, v0) :: rest))) as [[kn vn] Hlast]
      by (by apply last_is_Some).
    cases; intros [= <- <- <-]; norm; rewrite ?Hlast; cbn [fmap option_fmap option_map fst head].
    all: repeat split; try done; try lia; try set_solver.
Qed.

(** X19: the status [BuildTable] returns.  On an empty input it is the
    status of the iterator.  Otherwise a failed creation of the file is
    returned as it is; after that an error of the input iterator comes
    before everything else; and only then the first failure among
    [Finish], [Sync], [Close] and the validation. *)
Theorem BuildTable_status dbname env table_cache iter meta s meta' tr :
  BuildTable dbname env table_cache iter meta = Returns s meta' tr ->
  let fname := TableFileName dbname (number meta) in
  let file := (NewWritableFile env fname).2 in
  let builder := new_TableBuilder file in
  s = if decide (entries iter = []) then status iter
      else if negb (ok (NewWritableFile env fname).1) then (NewWritableFile env fname).1
      else if negb (ok (status iter)) then status iter
      else first_error [Finish builder (entries iter); Sync file; Close file;
                        NewIterator table_cache (number meta) (file_size meta')].
Proof.
  cbv zeta. unfold Builder.BuildTable.
  destruct (entries iter) as [|[k0 v0] rest] eqn:Hentries.
  - cases; intros [= <- <- <-]; done.
  - assert (is_Some (last ((k0, v0) :: rest))) as [[kn vn] Hlast]
      by (by apply last_is_Some).
    cases; intros [= <- <- <-]; norm; unfold first_error; simpl;
      repeat match goal with H : _ = _ :> Status |- _ => rewrite H end; simpl; done.
Qed.

End WithCollaborators.

Import Builder BuilderTrace Examples.

Local Abbreviation run := (Builder.BuildTable TableFileName new_TableBuilder "db").

Lemma BuildTable_keeps_file_witness :
  exists meta' tr,
    run good_env good_cache good_iter meta7 = Returns OK meta' tr
    /\ ok OK = true /\ 0 < file_size meta'
    /\ (forall f, EvDeleteFile f ∉ tr)
    /\ forall fs, TableFileName "db" (number meta7) ∈ files_after fs tr.
Proof.
  eexists _, _. split; [reflexivity|]. split; [reflexivity|]. split; [reflexivity|].
  destruct (BuildTable_keeps_file TableFileName new_TableBuilder "db" good_env good_cache
              good_iter meta7 _ _ _ eq_refl) as [_ Hkept].
  destruct (Hkept eq_refl eq_refl) as (Hdel & _ & Hthere).
  split; [exact Hdel | exact Hthere].
Defined.

Lemma BuildTable_releases_witness :
  exists meta' tr,
    run unsynced_env good_cache good_iter meta7
    = Returns (Error kIOError "sync failed") meta' tr
    /\ calls is_NewTableBuilder tr = 1%nat
    /\ calls is_DeleteBuilder tr = calls is_NewTableBuilder tr
    /\ calls is_DeleteFileObject tr = calls is_NewTableBuilder tr.
Proof.
  eexists _, _. split; [reflexivity|].
  destruct (BuildTable_releases TableFileName new_TableBuilder "db" unsynced_env good_cache
              good_iter meta7 _ _ _ eq_refl) as (_ & _ & Hb & Hf & _).
  split; [reflexivity|]. split; [exact Hb | exact Hf].
Defined.

Lemma BuildTable_meta_frame_witness :
  exists meta' tr,
    run unsynced_env good_cache good_iter meta7
    = Returns (Error kIOError "sync failed") meta' tr
    /\ number meta' = number meta7
    /\ allowed_seeks meta' = allowed_seeks meta7
    /\ file_size meta' = 50.
Proof.
  eexists _, _. split; [reflexivity|].
  destruct (BuildTable_meta_frame TableFileName new_TableBuilder "db" unsynced_env
              good_cache good_iter meta7 _ _ _ eq_refl) as (Hn & Ha & Hs & _).
  split; [exact Hn|]. split; [exact Ha | exact Hs].
Defined.

Lemma BuildTable_status_witness :
  exists meta' tr,
    run unsynced_env good_cache good_iter meta7
    = Returns (Error kIOError "sync failed") meta' tr
    /\ Error kIOError "sync failed" = Sync unsynced_file.
Proof.
  eexists _, _. split; [reflexivity|].
  exact (BuildTable_status TableFileName new_TableBuilder "db" unsynced_env good_cache
           good_iter meta7 _ _ _ eq_refl).
Defined.

End BuilderMore.

(** ** CompactionStats *)

Module CompactionStatsFacts.
Import CompactionStats.

Lemma sumZ_nonneg (l : list Z) : Forall (fun x => 0 <= x) l -> 0 <= sumZ l.
Proof. induction 1; simpl; lia. Qed.

Lemma sumZ_Permutation (l l' : list Z) : l ≡ₚ l' -> sumZ l = sumZ l'.
Proof. induction 1; simpl; lia. Qed.

Lemma add_int64_counts a b :
  0 <= a -> 0 <= b ->
  add_int64 a b = if fits (a + b) then Some (a + b) else None.
Proof.
  intros Ha Hb. unfold add_int64, fits. cbv zeta.
  replace (- 2 ^ 63 <=? a + b) with true by (symmetry; apply Z.leb_le; lia). done.
Qed.

Lemma Add_all_counts cs : forall this,
  counts this -> Forall counts cs ->
  Add_all this cs
  = if fits (micros this + sumZ (micros <$> cs))
       && fits (bytes_read this + sumZ (bytes_read <$> cs))
       && fits (bytes_written this + sumZ (bytes_written <$> cs))
    then Some {| micros := micros this + sumZ (micros <$> cs);
                 bytes_read := bytes_read this + sumZ (bytes_read <$> cs);
                 bytes_written := bytes_written this + sumZ (bytes_written <$> cs) |}
    else None.
Proof.
  induction cs as [|c cs IH]; intros this Hthis Hcs.
  - destruct this as [m r w]. destruct Hthis as (Hm & Hr & Hw). simpl in *.
    rewrite !Z.add_0_r. unfold fits.
    replace (m <? 2 ^ 63) with true by (symmetry; apply Z.ltb_lt; lia).
    replace (r <? 2 ^ 63) with true by (symmetry; apply Z.ltb_lt; lia).
    replace (w <? 2 ^ 63) with true by (symmetry; apply Z.ltb_lt; lia). done.
  - apply Forall_cons in Hcs as [Hc Hcs].
    destruct Hthis as (Hm & Hr & Hw). destruct Hc as (Hcm & Hcr & Hcw).
    assert (Hsm : 0 <= sumZ (micros <$> cs)).
    { apply sumZ_nonneg, Forall_fmap. eapply Forall_impl; [exact Hcs|].
      intros x Hx. simpl. apply Hx. }
    assert (Hsr : 0 <= sumZ (bytes_read <$> cs)).
    { apply sumZ_nonneg, Forall_fmap. eapply Forall_impl; [exact Hcs|].
      intros x Hx. simpl. apply Hx. }
    assert (Hsw : 0 <= sumZ (bytes_written <$> cs)).
    { apply sumZ_nonneg, Forall_fmap. eapply Forall_impl; [exact Hcs|].
      intros x Hx. simpl. apply Hx. }
    cbn [Add_all fmap list_fmap sumZ foldr]. fold (sumZ (micros <$> cs)).
    fold (sumZ (bytes_read <$> cs)). fold (sumZ (bytes_written <$> cs)).
    unfold Add. rewrite !add_int64_counts by lia. unfold fits in *.
    destruct (micros this + micros c <? 2 ^ 63) eqn:E1;
      [apply Z.ltb_lt in E1 | apply Z.ltb_ge in E1].
    2: { replace (micros this + (micros c + sumZ (micros <$> cs)) <? 2 ^ 63)
           with false by (symmetry; apply Z.ltb_ge; lia). done. }
    destruct (bytes_read this + bytes_read c <? 2 ^ 63) eqn:E2;
      [apply Z.ltb_lt in E2 | apply Z.ltb_ge in E2].
    2: { replace (bytes_read this + (bytes_read c + sumZ (bytes_read <$> cs)) <? 2 ^ 63)
           with false by (symmetry; apply Z.ltb_ge; lia).
         by rewrite andb_false_r. }
    destruct (bytes_written this + bytes_written c <? 2 ^ 63) eqn:E3;
      [apply Z.ltb_lt in E3 | apply Z.ltb_ge in E3].
    2: { replace (bytes_written this + (bytes_written c + sumZ (bytes_written <$> cs))
                  <? 2 ^ 63)
           with false by (symmetry; apply Z.ltb_ge; lia).
         by rewrite andb_false_r. }
    rewrite IH; [|repeat split; simpl; lia | done]. simpl.
    rewrite !Z.add_assoc. done.
Qed.

(** X15: adding up the stats of compactions, each a count within
    [int64_t], from [CompactionStats()] on gives the sum of each field; it
    is defined exactly when the three sums fit in [int64_t], and neither
    this nor the result depends on the order of the additions. *)
Theorem Add_all_sums (cs cs' : list t) :
  Forall counts cs ->
  let total := {| micros := sumZ (micros <$> cs);
                  bytes_read := sumZ (bytes_read <$> cs);
                  bytes_written := sumZ (bytes_written <$> cs) |} in
  (Add_all new cs = Some total
   <-> micros total < 2 ^ 63 /\ bytes_read total < 2 ^ 63 /\ bytes_written total < 2 ^ 63)
  /\ (forall r, Add_all new cs = Some r -> r = total /\ counts r)
  /\ (cs ≡ₚ cs' -> Add_all new cs' = Add_all new cs).
Proof.
  intros Hcs. cbv zeta.
  assert (Hnew : counts new) by (unfold counts; simpl; lia).
  assert (Hnn : 0 <= sumZ (micros <$> cs) /\ 0 <= sumZ (bytes_read <$> cs)
                /\ 0 <= sumZ (bytes_written <$> cs)).
  { repeat split; apply sumZ_nonneg, Forall_fmap; (eapply Forall_impl; [exact Hcs|]);
      intros x Hx; simpl; apply Hx. }
  rewrite (Add_all_counts cs new Hnew Hcs). simpl. unfold fits.
  split; [|split].
  - destruct (_ <? _) eqn:E1; [apply Z.ltb_lt in E1 | apply Z.ltb_ge in E1];
      (destruct (_ <? _) eqn:E2; [apply Z.ltb_lt in E2 | apply Z.ltb_ge in E2]);
      (destruct (_ <? _) eqn:E3; [apply Z.ltb_lt in E3 | apply Z.ltb_ge in E3]);
      simpl; split; try done; try lia.
  - intros r.
    destruct (_ <? _) eqn:E1; [apply Z.ltb_lt in E1|done];
      (destruct (_ <? _) eqn:E2; [apply Z.ltb_lt in E2|done]);
      (destruct (_ <? _) eqn:E3; [apply Z.ltb_lt in E3|done]).
    simpl. intros [= <-]. split; [done|]. unfold counts. simpl. lia.
  - intros Hperm.
    assert (Hcs' : Forall counts cs') by (by rewrite <- Hperm).
    rewrite (Add_all_counts cs' new Hnew Hcs'). simpl. unfold fits.
    rewrite <- (sumZ_Permutation (micros <$> cs) (micros <$> cs')) by (by rewrite Hperm).
    rewrite <- (sumZ_Permutation (bytes_read <$> cs) (bytes_read <$> cs'))
      by (by rewrite Hperm).
    rewrite <- (sumZ_Permutation (bytes_written <$> cs) (bytes_written <$> cs'))
      by (by rewrite Hperm).
    done.
Qed.

Lemma Add_all_sums_witness :
  Forall counts [MoreExamples.stats_a; MoreExamples.stats_b]
  /\ Add_all new [MoreExamples.stats_b; MoreExamples.stats_a]
     = Add_all new [MoreExamples.stats_a; MoreExamples.stats_b]
  /\ Add_all new [MoreExamples.stats_a; MoreExamples.stats_b]
     = Some {| micros := 2200; bytes_read := 4096; bytes_written := 2560 |}.
Proof.
  assert (Hc : Forall counts [MoreExamples.stats_a; MoreExamples.stats_b]).
  { repeat constructor; simpl; lia. }
  split; [exact Hc|].
  destruct (Add_all_sums [MoreExamples.stats_a; MoreExamples.stats_b]
              [MoreExamples.stats_b; MoreExamples.stats_a] Hc) as (Hiff & _ & Hperm).
  split.
  - apply Hperm. apply Permutation_swap.
  - apply Hiff. simpl. lia.
Defined.

End CompactionStatsFacts.
